(** * TenXClusterAligner: the three-stage barcode orchestration

    A shallow embedding of [TenXClusterAligner::align_first_stage],
    [align_second_stage], [align_third_stage] and [align], with the search
    engines they drive kept abstract, and the properties of the
    orchestration proved over it. *)

From Stdlib Require Import ZArith NArith Lia String.
From Stdlib Require Strings.Byte.
From stdpp Require Import base list.

Set Default Proof Using "Type".

(** ** Scalars *)

(** [_int64] arithmetic is two's complement on 64 bits. *)
Definition wrap64 (z : Z) : Z := ((z + 2 ^ 63) mod 2 ^ 64 - 2 ^ 63)%Z.

(** [GenomeLocation] wraps a signed 64-bit coordinate. *)
Definition GenomeLocation := Z.

(** Modelled from the spec: the declaration of [AlignmentResult] is in a
    header that is not part of the sources at hand; the specification gives
    the status of a mate as one of Found and NotFound. *)
Inductive AlignmentResult := NotFound | Found.

Definition is_NotFound (s : AlignmentResult) : bool :=
  match s with NotFound => true | Found => false end.

(** Modelled from the spec: [Direction] is declared in directions.h, which is
    not part of the sources at hand; a mate is on the forward strand or on its
    reverse complement. *)
Inductive Direction := FORWARD | RC.

(** A read, as far as the orchestration looks at it: its bases and the
    length [getDataLength] answers. *)
Record Read := { data : string; getDataLength : N }.

(** ** Arrays of [NUM_READS_PER_PAIR] elements *)

Definition NUM_READS_PER_PAIR : nat := 2.

Definition Arr2 (A : Type) : Type := (A * A)%type.

(** [a[r]] and [a[r] = v]; the source indexes these arrays with 0 and 1
    only. *)
Definition arr2_get {A} (r : nat) (a : Arr2 A) : A :=
  match r with O => fst a | _ => snd a end.

Definition arr2_set {A} (r : nat) (v : A) (a : Arr2 A) : Arr2 A :=
  match r with
  | O => (v, snd a)
  | S O => (fst a, v)
  | _ => a
  end.

(** ** Results *)

Record PairedAlignmentResult := {
  location : Arr2 GenomeLocation;
  direction : Arr2 Direction;
  score : Arr2 Z;
  scorePriorToClipping : Arr2 Z;
  mapq : Arr2 Z;
  status : Arr2 AlignmentResult;
  alignedAsPair : bool;
  fromAlignTogether : bool;
  nanosInAlignTogether : Z;
  nLVCalls : Z;
  nSmallHits : Z
}.

Record SingleAlignmentResult := {
  s_status : AlignmentResult;
  s_location : GenomeLocation;
  s_direction : Direction;
  s_score : Z;
  s_scorePriorToClipping : Z;
  s_mapq : Z
}.

Definition set_location r v (p : PairedAlignmentResult) :=
  {| location := arr2_set r v (location p); direction := direction p;
     score := score p; scorePriorToClipping := scorePriorToClipping p;
     mapq := mapq p; status := status p; alignedAsPair := alignedAsPair p;
     fromAlignTogether := fromAlignTogether p;
     nanosInAlignTogether := nanosInAlignTogether p;
     nLVCalls := nLVCalls p; nSmallHits := nSmallHits p |}.

Definition set_direction r v (p : PairedAlignmentResult) :=
  {| location := location p; direction := arr2_set r v (direction p);
     score := score p; scorePriorToClipping := scorePriorToClipping p;
     mapq := mapq p; status := status p; alignedAsPair := alignedAsPair p;
     fromAlignTogether := fromAlignTogether p;
     nanosInAlignTogether := nanosInAlignTogether p;
     nLVCalls := nLVCalls p; nSmallHits := nSmallHits p |}.

Definition set_score r v (p : PairedAlignmentResult) :=
  {| location := location p; direction := direction p;
     score := arr2_set r v (score p);
     scorePriorToClipping := scorePriorToClipping p;
     mapq := mapq p; status := status p; alignedAsPair := alignedAsPair p;
     fromAlignTogether := fromAlignTogether p;
     nanosInAlignTogether := nanosInAlignTogether p;
     nLVCalls := nLVCalls p; nSmallHits := nSmallHits p |}.

Definition set_scorePriorToClipping r v (p : PairedAlignmentResult) :=
  {| location := location p; direction := direction p; score := score p;
     scorePriorToClipping := arr2_set r v (scorePriorToClipping p);
     mapq := mapq p; status := status p; alignedAsPair := alignedAsPair p;
     fromAlignTogether := fromAlignTogether p;
     nanosInAlignTogether := nanosInAlignTogether p;
     nLVCalls := nLVCalls p; nSmallHits := nSmallHits p |}.

Definition set_mapq r v (p : PairedAlignmentResult) :=
  {| location := location p; direction := direction p; score := score p;
     scorePriorToClipping := scorePriorToClipping p;
     mapq := arr2_set r v (mapq p); status := status p;
     alignedAsPair := alignedAsPair p;
     fromAlignTogether := fromAlignTogether p;
     nanosInAlignTogether := nanosInAlignTogether p;
     nLVCalls := nLVCalls p; nSmallHits := nSmallHits p |}.

Definition set_status r v (p : PairedAlignmentResult) :=
  {| location := location p; direction := direction p; score := score p;
     scorePriorToClipping := scorePriorToClipping p;
     mapq := mapq p; status := arr2_set r v (status p);
     alignedAsPair := alignedAsPair p;
     fromAlignTogether := fromAlignTogether p;
     nanosInAlignTogether := nanosInAlignTogether p;
     nLVCalls := nLVCalls p; nSmallHits := nSmallHits p |}.

Definition set_alignedAsPair v (p : PairedAlignmentResult) :=
  {| location := location p; direction := direction p; score := score p;
     scorePriorToClipping := scorePriorToClipping p;
     mapq := mapq p; status := status p; alignedAsPair := v;
     fromAlignTogether := fromAlignTogether p;
     nanosInAlignTogether := nanosInAlignTogether p;
     nLVCalls := nLVCalls p; nSmallHits := nSmallHits p |}.

Definition set_fromAlignTogether v (p : PairedAlignmentResult) :=
  {| location := location p; direction := direction p; score := score p;
     scorePriorToClipping := scorePriorToClipping p;
     mapq := mapq p; status := status p; alignedAsPair := alignedAsPair p;
     fromAlignTogether := v;
     nanosInAlignTogether := nanosInAlignTogether p;
     nLVCalls := nLVCalls p; nSmallHits := nSmallHits p |}.

Definition set_nanosInAlignTogether v (p : PairedAlignmentResult) :=
  {| location := location p; direction := direction p; score := score p;
     scorePriorToClipping := scorePriorToClipping p;
     mapq := mapq p; status := status p; alignedAsPair := alignedAsPair p;
     fromAlignTogether := fromAlignTogether p;
     nanosInAlignTogether := v;
     nLVCalls := nLVCalls p; nSmallHits := nSmallHits p |}.

Definition set_nLVCalls v (p : PairedAlignmentResult) :=
  {| location := location p; direction := direction p; score := score p;
     scorePriorToClipping := scorePriorToClipping p;
     mapq := mapq p; status := status p; alignedAsPair := alignedAsPair p;
     fromAlignTogether := fromAlignTogether p;
     nanosInAlignTogether := nanosInAlignTogether p;
     nLVCalls := v; nSmallHits := nSmallHits p |}.

Definition set_nSmallHits v (p : PairedAlignmentResult) :=
  {| location := location p; direction := direction p; score := score p;
     scorePriorToClipping := scorePriorToClipping p;
     mapq := mapq p; status := status p; alignedAsPair := alignedAsPair p;
     fromAlignTogether := fromAlignTogether p;
     nanosInAlignTogether := nanosInAlignTogether p;
     nLVCalls := nLVCalls p; nSmallHits := v |}.

(** ** The search engines

    The paired engine bound to each tracker ([IntersectingPairedEndAligner],
    reached through [progressTracker[i].aligner]), the single-end engine
    ([BaseAligner]) and the Landau-Vishkin caches they share live outside the
    file at hand.  Their whole state is one value of [World]; every entry
    point is a function of the world and of what the C++ call passes, and
    answers the values it returns or writes through the pointers and
    references it was handed. *)

Definition AlignerId := nat.

Class EngineTypes := {
  World : Type;
  Loci : Type;
  double : Type;
  double_zero : double
}.

Section Engines.
Context `{ET : EngineTypes}.

(** What [align_phase_3] hands to [align_phase_4]. *)
Record Best := {
  bestPairScore : N;
  bestResultGenomeLocation : Arr2 GenomeLocation;
  bestResultDirection : Arr2 Direction;
  probabilityOfAllPairs : double;
  bestResultScore : Arr2 N;
  probabilityOfBestPair : double
}.

Record Phase3Out := {
  secondaryBufferOverflow : bool;
  p3_nSecondaryResults : Z;
  p3_secondaryResults : list PairedAlignmentResult;
  p3_best : Best;
  p3_popularSeedsSkipped : N
}.

Record Phase4Out := {
  p4_result : PairedAlignmentResult;
  p4_nSecondaryResults : Z;
  p4_secondaryResults : list PairedAlignmentResult;
  p4_popularSeedsSkipped : N
}.

Record AlignReadOut := {
  fitInSecondaryBuffer : bool;
  singleResult : SingleAlignmentResult;
  singleEndSecondaryResultsThisTime : Z;
  ar_secondaryResults : list SingleAlignmentResult
}.

Class Engines := {
  (* align_phase_1(read0, read1, popularSeedsSkipped) *)
  align_phase_1 :
    World -> AlignerId -> Read -> Read -> N -> (bool * N) * World;
  align_phase_2_init : World -> AlignerId -> bool * World;
  align_phase_2_get_loci : World -> AlignerId -> Loci;
  (* align_phase_2_to_target_loc(clusterTargetLoc, NULL) *)
  align_phase_2_to_target_loc : World -> AlignerId -> GenomeLocation -> World;
  (* align_phase_3(maxEditDistanceForSecondaryResults,
       secondaryResultBufferSize, &nSecondaryResults, &result[1],
       maxSecondaryAlignmentsToReturn, bestPairScore, ...,
       probabilityOfAllPairs, ..., popularSeedsSkipped, probabilityOfBestPair) *)
  align_phase_3 :
    World -> AlignerId -> Z -> Z -> Z -> list PairedAlignmentResult -> Z ->
    N -> double -> N -> double -> Phase3Out * World;
  (* align_phase_4(read0, read1, &result[0], maxEditDistanceForSecondaryResults,
       &nSecondaryResults, &result[1], maxSecondaryAlignmentsToReturn,
       popularSeedsSkipped, best...) *)
  align_phase_4 :
    World -> AlignerId -> Read -> Read -> PairedAlignmentResult -> Z -> Z ->
    list PairedAlignmentResult -> Z -> N -> Best -> Phase4Out * World;
  (* singleAligner->AlignRead(read, &singleResult, maxEditDistance,
       capacity, &countThisTime, maxToReturn, buffer + offset) *)
  AlignRead :
    World -> Read -> Z -> Z -> Z -> Z -> list SingleAlignmentResult ->
    AlignReadOut * World
}.

(** ** The progress tracker *)

Record TenXProgressTracker := {
  pairNotDone : bool;
  singleNotDone : bool;
  pairedReads : Arr2 Read;
  aligner : AlignerId;
  (* result[0], the primary result *)
  result0 : PairedAlignmentResult;
  (* result + 1, the buffer of secondary paired results *)
  secondaryResults : list PairedAlignmentResult;
  secondaryResultBufferSize : Z;
  nSecondaryResults : Z;
  singleSecondaryBufferSize : Z;
  nSingleEndSecondaryResultsForFirstRead : Z;
  nSingleEndSecondaryResultsForSecondRead : Z;
  singleEndSecondaryResults : list SingleAlignmentResult;
  popularSeedsSkipped : N;
  nextLoci : Loci;
  next : option nat
}.


(** Assignments to the fields of a tracker. *)

Definition set_pairNotDone v (t : TenXProgressTracker) : TenXProgressTracker :=
  {| pairNotDone := v; singleNotDone := singleNotDone t;
     pairedReads := pairedReads t; aligner := aligner t;
     result0 := result0 t; secondaryResults := secondaryResults t;
     secondaryResultBufferSize := secondaryResultBufferSize t;
     nSecondaryResults := nSecondaryResults t;
     singleSecondaryBufferSize := singleSecondaryBufferSize t;
     nSingleEndSecondaryResultsForFirstRead := nSingleEndSecondaryResultsForFirstRead t;
     nSingleEndSecondaryResultsForSecondRead := nSingleEndSecondaryResultsForSecondRead t;
     singleEndSecondaryResults := singleEndSecondaryResults t;
     popularSeedsSkipped := popularSeedsSkipped t; nextLoci := nextLoci t;
     next := next t |}.

Definition set_singleNotDone v (t : TenXProgressTracker) : TenXProgressTracker :=
  {| pairNotDone := pairNotDone t; singleNotDone := v;
     pairedReads := pairedReads t; aligner := aligner t;
     result0 := result0 t; secondaryResults := secondaryResults t;
     secondaryResultBufferSize := secondaryResultBufferSize t;
     nSecondaryResults := nSecondaryResults t;
     singleSecondaryBufferSize := singleSecondaryBufferSize t;
     nSingleEndSecondaryResultsForFirstRead := nSingleEndSecondaryResultsForFirstRead t;
     nSingleEndSecondaryResultsForSecondRead := nSingleEndSecondaryResultsForSecondRead t;
     singleEndSecondaryResults := singleEndSecondaryResults t;
     popularSeedsSkipped := popularSeedsSkipped t; nextLoci := nextLoci t;
     next := next t |}.

Definition set_result0 v (t : TenXProgressTracker) : TenXProgressTracker :=
  {| pairNotDone := pairNotDone t; singleNotDone := singleNotDone t;
     pairedReads := pairedReads t; aligner := aligner t; result0 := v;
     secondaryResults := secondaryResults t;
     secondaryResultBufferSize := secondaryResultBufferSize t;
     nSecondaryResults := nSecondaryResults t;
     singleSecondaryBufferSize := singleSecondaryBufferSize t;
     nSingleEndSecondaryResultsForFirstRead := nSingleEndSecondaryResultsForFirstRead t;
     nSingleEndSecondaryResultsForSecondRead := nSingleEndSecondaryResultsForSecondRead t;
     singleEndSecondaryResults := singleEndSecondaryResults t;
     popularSeedsSkipped := popularSeedsSkipped t; nextLoci := nextLoci t;
     next := next t |}.

Definition set_secondaryResults v (t : TenXProgressTracker) : TenXProgressTracker :=
  {| pairNotDone := pairNotDone t; singleNotDone := singleNotDone t;
     pairedReads := pairedReads t; aligner := aligner t;
     result0 := result0 t; secondaryResults := v;
     secondaryResultBufferSize := secondaryResultBufferSize t;
     nSecondaryResults := nSecondaryResults t;
     singleSecondaryBufferSize := singleSecondaryBufferSize t;
     nSingleEndSecondaryResultsForFirstRead := nSingleEndSecondaryResultsForFirstRead t;
     nSingleEndSecondaryResultsForSecondRead := nSingleEndSecondaryResultsForSecondRead t;
     singleEndSecondaryResults := singleEndSecondaryResults t;
     popularSeedsSkipped := popularSeedsSkipped t; nextLoci := nextLoci t;
     next := next t |}.

Definition set_secondaryResultBufferSize v (t : TenXProgressTracker) : TenXProgressTracker :=
  {| pairNotDone := pairNotDone t; singleNotDone := singleNotDone t;
     pairedReads := pairedReads t; aligner := aligner t;
     result0 := result0 t; secondaryResults := secondaryResults t;
     secondaryResultBufferSize := v;
     nSecondaryResults := nSecondaryResults t;
     singleSecondaryBufferSize := singleSecondaryBufferSize t;
     nSingleEndSecondaryResultsForFirstRead := nSingleEndSecondaryResultsForFirstRead t;
     nSingleEndSecondaryResultsForSecondRead := nSingleEndSecondaryResultsForSecondRead t;
     singleEndSecondaryResults := singleEndSecondaryResults t;
     popularSeedsSkipped := popularSeedsSkipped t; nextLoci := nextLoci t;
     next := next t |}.

Definition set_nSecondaryResults v (t : TenXProgressTracker) : TenXProgressTracker :=
  {| pairNotDone := pairNotDone t; singleNotDone := singleNotDone t;
     pairedReads := pairedReads t; aligner := aligner t;
     result0 := result0 t; secondaryResults := secondaryResults t;
     secondaryResultBufferSize := secondaryResultBufferSize t;
     nSecondaryResults := v;
     singleSecondaryBufferSize := singleSecondaryBufferSize t;
     nSingleEndSecondaryResultsForFirstRead := nSingleEndSecondaryResultsForFirstRead t;
     nSingleEndSecondaryResultsForSecondRead := nSingleEndSecondaryResultsForSecondRead t;
     singleEndSecondaryResults := singleEndSecondaryResults t;
     popularSeedsSkipped := popularSeedsSkipped t; nextLoci := nextLoci t;
     next := next t |}.

Definition set_singleSecondaryBufferSize v (t : TenXProgressTracker) : TenXProgressTracker :=
  {| pairNotDone := pairNotDone t; singleNotDone := singleNotDone t;
     pairedReads := pairedReads t; aligner := aligner t;
     result0 := result0 t; secondaryResults := secondaryResults t;
     secondaryResultBufferSize := secondaryResultBufferSize t;
     nSecondaryResults := nSecondaryResults t;
     singleSecondaryBufferSize := v;
     nSingleEndSecondaryResultsForFirstRead := nSingleEndSecondaryResultsForFirstRead t;
     nSingleEndSecondaryResultsForSecondRead := nSingleEndSecondaryResultsForSecondRead t;
     singleEndSecondaryResults := singleEndSecondaryResults t;
     popularSeedsSkipped := popularSeedsSkipped t; nextLoci := nextLoci t;
     next := next t |}.

Definition set_nSingleEndSecondaryResultsForFirstRead v (t : TenXProgressTracker) : TenXProgressTracker :=
  {| pairNotDone := pairNotDone t; singleNotDone := singleNotDone t;
     pairedReads := pairedReads t; aligner := aligner t;
     result0 := result0 t; secondaryResults := secondaryResults t;
     secondaryResultBufferSize := secondaryResultBufferSize t;
     nSecondaryResults := nSecondaryResults t;
     singleSecondaryBufferSize := singleSecondaryBufferSize t;
     nSingleEndSecondaryResultsForFirstRead := v;
     nSingleEndSecondaryResultsForSecondRead := nSingleEndSecondaryResultsForSecondRead t;
     singleEndSecondaryResults := singleEndSecondaryResults t;
     popularSeedsSkipped := popularSeedsSkipped t; nextLoci := nextLoci t;
     next := next t |}.

Definition set_nSingleEndSecondaryResultsForSecondRead v (t : TenXProgressTracker) : TenXProgressTracker :=
  {| pairNotDone := pairNotDone t; singleNotDone := singleNotDone t;
     pairedReads := pairedReads t; aligner := aligner t;
     result0 := result0 t; secondaryResults := secondaryResults t;
     secondaryResultBufferSize := secondaryResultBufferSize t;
     nSecondaryResults := nSecondaryResults t;
     singleSecondaryBufferSize := singleSecondaryBufferSize t;
     nSingleEndSecondaryResultsForFirstRead := nSingleEndSecondaryResultsForFirstRead t;
     nSingleEndSecondaryResultsForSecondRead := v;
     singleEndSecondaryResults := singleEndSecondaryResults t;
     popularSeedsSkipped := popularSeedsSkipped t; nextLoci := nextLoci t;
     next := next t |}.

Definition set_singleEndSecondaryResults v (t : TenXProgressTracker) : TenXProgressTracker :=
  {| pairNotDone := pairNotDone t; singleNotDone := singleNotDone t;
     pairedReads := pairedReads t; aligner := aligner t;
     result0 := result0 t; secondaryResults := secondaryResults t;
     secondaryResultBufferSize := secondaryResultBufferSize t;
     nSecondaryResults := nSecondaryResults t;
     singleSecondaryBufferSize := singleSecondaryBufferSize t;
     nSingleEndSecondaryResultsForFirstRead := nSingleEndSecondaryResultsForFirstRead t;
     nSingleEndSecondaryResultsForSecondRead := nSingleEndSecondaryResultsForSecondRead t;
     singleEndSecondaryResults := v;
     popularSeedsSkipped := popularSeedsSkipped t; nextLoci := nextLoci t;
     next := next t |}.

Definition set_popularSeedsSkipped v (t : TenXProgressTracker) : TenXProgressTracker :=
  {| pairNotDone := pairNotDone t; singleNotDone := singleNotDone t;
     pairedReads := pairedReads t; aligner := aligner t;
     result0 := result0 t; secondaryResults := secondaryResults t;
     secondaryResultBufferSize := secondaryResultBufferSize t;
     nSecondaryResults := nSecondaryResults t;
     singleSecondaryBufferSize := singleSecondaryBufferSize t;
     nSingleEndSecondaryResultsForFirstRead := nSingleEndSecondaryResultsForFirstRead t;
     nSingleEndSecondaryResultsForSecondRead := nSingleEndSecondaryResultsForSecondRead t;
     singleEndSecondaryResults := singleEndSecondaryResults t;
     popularSeedsSkipped := v; nextLoci := nextLoci t; next := next t |}.

Definition set_nextLoci v (t : TenXProgressTracker) : TenXProgressTracker :=
  {| pairNotDone := pairNotDone t; singleNotDone := singleNotDone t;
     pairedReads := pairedReads t; aligner := aligner t;
     result0 := result0 t; secondaryResults := secondaryResults t;
     secondaryResultBufferSize := secondaryResultBufferSize t;
     nSecondaryResults := nSecondaryResults t;
     singleSecondaryBufferSize := singleSecondaryBufferSize t;
     nSingleEndSecondaryResultsForFirstRead := nSingleEndSecondaryResultsForFirstRead t;
     nSingleEndSecondaryResultsForSecondRead := nSingleEndSecondaryResultsForSecondRead t;
     singleEndSecondaryResults := singleEndSecondaryResults t;
     popularSeedsSkipped := popularSeedsSkipped t; nextLoci := v;
     next := next t |}.

Definition set_next v (t : TenXProgressTracker) : TenXProgressTracker :=
  {| pairNotDone := pairNotDone t; singleNotDone := singleNotDone t;
     pairedReads := pairedReads t; aligner := aligner t;
     result0 := result0 t; secondaryResults := secondaryResults t;
     secondaryResultBufferSize := secondaryResultBufferSize t;
     nSecondaryResults := nSecondaryResults t;
     singleSecondaryBufferSize := singleSecondaryBufferSize t;
     nSingleEndSecondaryResultsForFirstRead := nSingleEndSecondaryResultsForFirstRead t;
     nSingleEndSecondaryResultsForSecondRead := nSingleEndSecondaryResultsForSecondRead t;
     singleEndSecondaryResults := singleEndSecondaryResults t;
     popularSeedsSkipped := popularSeedsSkipped t; nextLoci := nextLoci t;
     next := v |}.

(** ** Calls into the engines

    The orchestration runs in a state monad over the world of the engines
    and a log of the engine entry points it has called, in order.  The log
    is not program state: it is there to state which engine is invoked for
    which pair. *)

Inductive Call :=
| CallPhase1 (pairIdx : nat)
| CallPhase2Init (pairIdx : nat)
| CallPhase2GetLoci (pairIdx : nat)
| CallPhase2ToTargetLoc (pairIdx : nat) (target : GenomeLocation)
| CallPhase3 (pairIdx : nat) (bufferSize : Z) (overflow : bool)
| CallPhase4 (pairIdx : nat)
| CallAlignRead (pairIdx : nat) (whichRead : nat) (bufferSize offset : Z)
    (fit : bool).

Definition call_pair (c : Call) : nat :=
  match c with
  | CallPhase1 i | CallPhase2Init i | CallPhase2GetLoci i
  | CallPhase2ToTargetLoc i _ | CallPhase3 i _ _ | CallPhase4 i
  | CallAlignRead i _ _ _ _ => i
  end.

Definition is_phase1_of (i : nat) (c : Call) : bool :=
  match c with CallPhase1 j => Nat.eqb i j | _ => false end.

Definition is_overflow3_of (i : nat) (c : Call) : bool :=
  match c with CallPhase3 j _ true => Nat.eqb i j | _ => false end.

Definition is_to_target (c : Call) : bool :=
  match c with CallPhase2ToTargetLoc _ _ => true | _ => false end.

Definition is_scoring (c : Call) : bool :=
  match c with CallPhase3 _ _ _ | CallPhase4 _ => true | _ => false end.

Definition is_single_end (c : Call) : bool :=
  match c with CallAlignRead _ _ _ _ _ => true | _ => false end.

Definition count_calls (p : Call -> bool) (l : list Call) : nat :=
  length (List.filter p l).

Context `{E : Engines}.

Record Env := { world : World; calls : list Call }.

Definition M (A : Type) : Type := Env -> A * Env.

Definition ret {A} (a : A) : M A := fun e => (a, e).

Definition bind {A B} (m : M A) (k : A -> M B) : M B :=
  fun e => let (a, e') := m e in k a e'.

Notation "x <- c1 ;; c2" := (bind c1 (fun x => c2))
  (at level 100, c1 at next level, right associativity).

Definition logged {A} (c : A -> Call) (f : World -> A * World) : M A :=
  fun e => let (a, w) := f (world e) in
           (a, {| world := w; calls := calls e ++ [c a] |}).

Definition call_align_phase_1 (pairIdx : nat) (a : AlignerId)
    (read0 read1 : Read) (skipped : N) : M (bool * N) :=
  logged (fun _ => CallPhase1 pairIdx)
         (fun w => align_phase_1 w a read0 read1 skipped).

Definition call_align_phase_2_init (pairIdx : nat) (a : AlignerId) : M bool :=
  logged (fun _ => CallPhase2Init pairIdx) (fun w => align_phase_2_init w a).

Definition call_align_phase_2_get_loci (pairIdx : nat) (a : AlignerId)
    : M Loci :=
  logged (fun _ => CallPhase2GetLoci pairIdx)
         (fun w => (align_phase_2_get_loci w a, w)).

Definition call_align_phase_2_to_target_loc (pairIdx : nat) (a : AlignerId)
    (target : GenomeLocation) : M unit :=
  logged (fun _ => CallPhase2ToTargetLoc pairIdx target)
         (fun w => (tt, align_phase_2_to_target_loc w a target)).

Definition call_align_phase_3 (pairIdx : nat) (a : AlignerId)
    (maxEditDistanceForSecondaryResults bufferSize nSecondary : Z)
    (secondary : list PairedAlignmentResult)
    (maxSecondaryAlignmentsToReturn : Z)
    (bestScore : N) (pAll : double) (skipped : N) (pBest : double)
    : M Phase3Out :=
  logged (fun o => CallPhase3 pairIdx bufferSize (secondaryBufferOverflow o))
         (fun w => align_phase_3 w a maxEditDistanceForSecondaryResults
                     bufferSize nSecondary secondary
                     maxSecondaryAlignmentsToReturn bestScore pAll skipped
                     pBest).

Definition call_align_phase_4 (pairIdx : nat) (a : AlignerId)
    (read0 read1 : Read) (res : PairedAlignmentResult)
    (maxEditDistanceForSecondaryResults nSecondary : Z)
    (secondary : list PairedAlignmentResult)
    (maxSecondaryAlignmentsToReturn : Z) (skipped : N) (best : Best)
    : M Phase4Out :=
  logged (fun _ => CallPhase4 pairIdx)
         (fun w => align_phase_4 w a read0 read1 res
                     maxEditDistanceForSecondaryResults nSecondary secondary
                     maxSecondaryAlignmentsToReturn skipped best).

Definition call_AlignRead (pairIdx r : nat) (read : Read)
    (maxEditDistanceForSecondaryResults capacity : Z)
    (maxSecondaryAlignmentsToReturn offset : Z)
    (buffer : list SingleAlignmentResult) : M AlignReadOut :=
  logged (fun o => CallAlignRead pairIdx r capacity offset
                     (fitInSecondaryBuffer o))
         (fun w => AlignRead w read maxEditDistanceForSecondaryResults
                     capacity maxSecondaryAlignmentsToReturn offset buffer).

(** ** The aligner object *)

(** The members of [TenXClusterAligner] the stages read. *)
Record Config := { minReadLength : N; forceSpacing : bool }.

Variable cfg : Config.

(** [for (pairIdx = 0; pairIdx < barcodeSize; pairIdx++) body], over the
    array [progressTracker].  An index past the end of the array is outside
    the contract of the caller (undefined behaviour in the C++); the model
    leaves the array as it is there. *)
Fixpoint for_each_pair (body : nat -> TenXProgressTracker -> bool ->
                               M (TenXProgressTracker * bool))
    (idxs : list nat) (progressTracker : list TenXProgressTracker)
    (barcodeFinished : bool) : M (list TenXProgressTracker * bool) :=
  match idxs with
  | [] => ret (progressTracker, barcodeFinished)
  | pairIdx :: rest =>
      match progressTracker !! pairIdx with
      | Some t =>
          r <- body pairIdx t barcodeFinished ;;
          for_each_pair body rest (<[pairIdx := fst r]> progressTracker)
                        (snd r)
      | None => for_each_pair body rest progressTracker barcodeFinished
      end
  end.

(** *** Stage 1 *)

(** The branch of two reads that are both too short: the primary result is
    cleared for both reads and the pair is done. *)
Definition too_short_result (p : PairedAlignmentResult)
    : PairedAlignmentResult :=
  let clear whichRead p :=
    set_status whichRead NotFound
      (set_score whichRead 0%Z
        (set_mapq whichRead 0%Z (set_location whichRead 0%Z p))) in
  set_nSmallHits 0%Z
    (set_nLVCalls 0%Z
      (set_nanosInAlignTogether 0%Z
        (set_fromAlignTogether false
          (set_alignedAsPair false
            (fold_left (fun p whichRead => clear whichRead p)
                       (seq 0 NUM_READS_PER_PAIR) p))))).

(** [result[0].status[0] = result[0].status[1] = NotFound]. *)
Definition status_not_found (t : TenXProgressTracker) : TenXProgressTracker :=
  set_result0 (set_status 0 NotFound (set_status 1 NotFound (result0 t))) t.

Definition both_too_short (t : TenXProgressTracker) : bool :=
  (getDataLength (arr2_get 0 (pairedReads t)) <? minReadLength cfg)%N
  && (getDataLength (arr2_get 1 (pairedReads t)) <? minReadLength cfg)%N.

Definition both_long_enough (t : TenXProgressTracker) : bool :=
  (minReadLength cfg <=? getDataLength (arr2_get 0 (pairedReads t)))%N
  && (minReadLength cfg <=? getDataLength (arr2_get 1 (pairedReads t)))%N.

(** The branch "Reads are both too short". *)
Definition pair_too_short (t : TenXProgressTracker) : TenXProgressTracker :=
  set_singleNotDone false
    (set_pairNotDone false
      (set_result0 (too_short_result (result0 t)) t)).

(** What the tracker holds after
    [pairNotDone = !aligner->align_phase_1(...)]. *)
Definition after_phase_1 (r : bool * N) (t : TenXProgressTracker)
    : TenXProgressTracker :=
  set_pairNotDone (negb (fst r)) (set_popularSeedsSkipped (snd r) t).

(** What the tracker holds after the initialisation for phase 2. *)
Definition after_phase_2_init (more : bool) (loci : Loci)
    (t : TenXProgressTracker) : TenXProgressTracker :=
  set_next None (set_nextLoci loci (set_pairNotDone more t)).

(** The body of the first loop of [align_first_stage]. *)
Definition first_stage_pair (pairIdx : nat) (t : TenXProgressTracker)
    (barcodeFinished : bool) : M (TenXProgressTracker * bool) :=
  if pairNotDone t then
    let t := status_not_found t in
    let read0 := arr2_get 0 (pairedReads t) in
    let read1 := arr2_get 1 (pairedReads t) in
    if both_too_short t then ret (pair_too_short t, barcodeFinished)
    else
      (* At least one read of the pair is worthy of further examination *)
      if both_long_enough t then
        r <- call_align_phase_1 pairIdx (aligner t) read0 read1
                                (popularSeedsSkipped t) ;;
        let t := after_phase_1 r t in
        if pairNotDone t then
          more <- call_align_phase_2_init pairIdx (aligner t) ;;
          loci <- call_align_phase_2_get_loci pairIdx (aligner t) ;;
          ret (after_phase_2_init more loci t, false)
        else ret (t, false)
      else ret (t, false)
  else ret (t, barcodeFinished).

(** [GenomeLocation(0000000000)], "just for testing". *)
Definition clusterTargetLoc : GenomeLocation := 0%Z.

(** The body of the second loop of [align_first_stage]. *)
Definition to_target_pair (pairIdx : nat) (t : TenXProgressTracker)
    (barcodeFinished : bool) : M (TenXProgressTracker * bool) :=
  if pairNotDone t then
    _ <- call_align_phase_2_to_target_loc pairIdx (aligner t)
           clusterTargetLoc ;;
    ret (t, barcodeFinished)
  else ret (t, barcodeFinished).

Definition align_first_stage (barcodeSize : nat)
    (progressTracker : list TenXProgressTracker)
    : M (list TenXProgressTracker * bool) :=
  r <- for_each_pair first_stage_pair (seq 0 barcodeSize) progressTracker
                     true ;;
  for_each_pair to_target_pair (seq 0 barcodeSize) (fst r) (snd r).

(** *** Stage 2 *)

(** What the tracker holds once [align_phase_3] has written through
    [&nSecondaryResults], [&result[1]] and [popularSeedsSkipped]. *)
Definition after_phase_3 (o3 : Phase3Out) (t : TenXProgressTracker)
    : TenXProgressTracker :=
  set_popularSeedsSkipped (p3_popularSeedsSkipped o3)
    (set_secondaryResults (p3_secondaryResults o3)
      (set_nSecondaryResults (p3_nSecondaryResults o3) t)).

(** The branch [if (secondaryBufferOverflow)]. *)
Definition paired_overflow (t : TenXProgressTracker) : TenXProgressTracker :=
  (* So the caller knows it's the paired secondary buffer that overflowed *)
  set_nSecondaryResults (wrap64 (secondaryResultBufferSize t + 1))
    (set_nSingleEndSecondaryResultsForFirstRead 0%Z
      (set_nSingleEndSecondaryResultsForSecondRead 0%Z t)).

(** What the tracker holds once [align_phase_4] has written through
    [&result[0]], [&nSecondaryResults], [&result[1]] and
    [popularSeedsSkipped]. *)
Definition after_phase_4 (o4 : Phase4Out) (t : TenXProgressTracker)
    : TenXProgressTracker :=
  set_popularSeedsSkipped (p4_popularSeedsSkipped o4)
    (set_secondaryResults (p4_secondaryResults o4)
      (set_nSecondaryResults (p4_nSecondaryResults o4)
        (set_result0 (p4_result o4) t))).

(** The rest of the loop body after [align_phase_4]; each of its three ends
    leaves [barcodeFinished] as it is. *)
Definition paired_scored (t : TenXProgressTracker) : TenXProgressTracker :=
  let t := set_result0
             (set_alignedAsPair true
               (set_fromAlignTogether true
                 (set_nanosInAlignTogether 0%Z (result0 t)))) t in
  if forceSpacing cfg then
    let t :=
      if is_NotFound (arr2_get 0 (status (result0 t)))
      then set_result0 (set_fromAlignTogether false (result0 t)) t
      else t in
    set_singleNotDone false (set_pairNotDone false t)
  else if negb (is_NotFound (arr2_get 0 (status (result0 t))))
          && negb (is_NotFound (arr2_get 1 (status (result0 t))))
  then
    (* Not a chimeric read. *)
    set_singleNotDone false (set_pairNotDone false t)
  else
    (* paired analysis is done anyways *)
    set_pairNotDone false t.

(** [nSingleEndSecondaryResultsForFirstRead = 0;
     nSingleEndSecondaryResultsForSecondRead = 0]. *)
Definition reset_single_counts (t : TenXProgressTracker)
    : TenXProgressTracker :=
  set_nSingleEndSecondaryResultsForSecondRead 0%Z
    (set_nSingleEndSecondaryResultsForFirstRead 0%Z t).

(** The body of the loop of [align_second_stage]. *)
Definition second_stage_pair
    (maxEditDistanceForSecondaryResults maxSecondaryAlignmentsToReturn : Z)
    (pairIdx : nat) (t : TenXProgressTracker) (barcodeFinished : bool)
    : M (TenXProgressTracker * bool) :=
  if pairNotDone t then
    let read0 := arr2_get 0 (pairedReads t) in
    let read1 := arr2_get 1 (pairedReads t) in
    let t := reset_single_counts t in
    o3 <- call_align_phase_3 pairIdx (aligner t)
            maxEditDistanceForSecondaryResults (secondaryResultBufferSize t)
            (nSecondaryResults t) (secondaryResults t)
            maxSecondaryAlignmentsToReturn 65536%N double_zero
            (popularSeedsSkipped t) double_zero ;;
    let t := after_phase_3 o3 t in
    if secondaryBufferOverflow o3 then ret (paired_overflow t, false)
    else
      o4 <- call_align_phase_4 pairIdx (aligner t) read0 read1 (result0 t)
              maxEditDistanceForSecondaryResults (nSecondaryResults t)
              (secondaryResults t) maxSecondaryAlignmentsToReturn
              (popularSeedsSkipped t) (p3_best o3) ;;
      ret (paired_scored (after_phase_4 o4 t), barcodeFinished)
  else ret (t, barcodeFinished).

Definition align_second_stage (barcodeSize : nat)
    (maxEditDistanceForSecondaryResults maxSecondaryAlignmentsToReturn : Z)
    (progressTracker : list TenXProgressTracker)
    : M (list TenXProgressTracker * bool) :=
  for_each_pair
    (second_stage_pair maxEditDistanceForSecondaryResults
                       maxSecondaryAlignmentsToReturn)
    (seq 0 barcodeSize) progressTracker true.

(** *** Stage 3 *)

(** The two counters [resultCount] can point at. *)
Inductive Counter := ForFirstRead | ForSecondRead.

Definition set_counter (c : Counter) (v : Z) (t : TenXProgressTracker)
    : TenXProgressTracker :=
  match c with
  | ForFirstRead => set_nSingleEndSecondaryResultsForFirstRead v t
  | ForSecondRead => set_nSingleEndSecondaryResultsForSecondRead v t
  end.

(** [_int64 *resultCount[2] = { &...ForFirstRead, &...ForFirstRead }]. *)
Definition resultCount : Arr2 Counter := (ForFirstRead, ForFirstRead).

(** The branch of a read shorter than [minReadLength]. *)
Definition single_too_short (r : nat) (t : TenXProgressTracker)
    : TenXProgressTracker :=
  set_result0
    (set_score r 0%Z
      (set_location r 0%Z
        (set_direction r FORWARD
          (set_mapq r 0%Z (set_status r NotFound (result0 t)))))) t.

(** The capacity and the offset [AlignRead] is given: what is left of the
    single-end buffer after [nSingleEndSecondaryResultsForFirstRead]
    entries. *)
Definition single_capacity (t : TenXProgressTracker) : Z :=
  wrap64 (singleSecondaryBufferSize t
          - nSingleEndSecondaryResultsForFirstRead t).

Definition single_offset (t : TenXProgressTracker) : Z :=
  nSingleEndSecondaryResultsForFirstRead t.

(** The branch [if (!fitInSecondaryBuffer)]. *)
Definition single_overflow (t : TenXProgressTracker) : TenXProgressTracker :=
  set_nSingleEndSecondaryResultsForSecondRead 0%Z
    (set_nSingleEndSecondaryResultsForFirstRead
       (wrap64 (singleSecondaryBufferSize t + 1))
       (set_nSecondaryResults 0%Z t)).

(** The rest of the body for a read that fit. *)
Definition single_fit (r : nat) (o : AlignReadOut) (t : TenXProgressTracker)
    : TenXProgressTracker :=
  let t := set_counter (arr2_get r resultCount)
             (singleEndSecondaryResultsThisTime o) t in
  let sr := singleResult o in
  set_result0
    (set_scorePriorToClipping r (s_scorePriorToClipping sr)
      (set_score r (s_score sr)
        (set_location r (s_location sr)
          (set_direction r (s_direction sr)
            (* Heavy quality penalty for chimeric reads *)
            (set_mapq r (Z.quot (s_mapq sr) 3)
              (set_status r (s_status sr) (result0 t)))))))
    t.

(** The loop [for (r = 0; r < NUM_READS_PER_PAIR; r++)] of
    [align_third_stage], over the reads [rs] still to do; it answers the
    tracker, [barcodeFinished] and [noOverflow].  The [break] of the
    overflow branch leaves the loop. *)
Fixpoint third_stage_reads
    (maxEditDistanceForSecondaryResults maxSecondaryAlignmentsToReturn : Z)
    (pairIdx : nat) (rs : list nat) (t : TenXProgressTracker)
    (barcodeFinished : bool) : M (TenXProgressTracker * bool * bool) :=
  match rs with
  | [] => ret (t, barcodeFinished, true)
  | r :: rest =>
      let read := arr2_get r (pairedReads t) in
      if (getDataLength read <? minReadLength cfg)%N then
        third_stage_reads maxEditDistanceForSecondaryResults
          maxSecondaryAlignmentsToReturn pairIdx rest (single_too_short r t)
          barcodeFinished
      else
        o <- call_AlignRead pairIdx r read maxEditDistanceForSecondaryResults
               (single_capacity t) maxSecondaryAlignmentsToReturn
               (single_offset t) (singleEndSecondaryResults t) ;;
        let t := set_singleEndSecondaryResults (ar_secondaryResults o) t in
        if negb (fitInSecondaryBuffer o) then
          ret (single_overflow t, false, false)
        else
          third_stage_reads maxEditDistanceForSecondaryResults
            maxSecondaryAlignmentsToReturn pairIdx rest (single_fit r o t)
            barcodeFinished
  end.

(** [if (noOverflow)]: the pair is done. *)
Definition single_done (t : TenXProgressTracker) : TenXProgressTracker :=
  set_result0
    (set_alignedAsPair false (set_fromAlignTogether false (result0 t)))
    (set_singleNotDone false t).

(** The body of the outer loop of [align_third_stage]. *)
Definition third_stage_pair
    (maxEditDistanceForSecondaryResults maxSecondaryAlignmentsToReturn : Z)
    (pairIdx : nat) (t : TenXProgressTracker) (barcodeFinished : bool)
    : M (TenXProgressTracker * bool) :=
  if singleNotDone t then
    r <- third_stage_reads maxEditDistanceForSecondaryResults
           maxSecondaryAlignmentsToReturn pairIdx (seq 0 NUM_READS_PER_PAIR)
           t barcodeFinished ;;
    let t := fst (fst r) in
    let barcodeFinished := snd (fst r) in
    let noOverflow := snd r in
    (* This pair is done processing, only if both directions has no overflow. *)
    if noOverflow then ret (single_done t, barcodeFinished)
    else ret (t, barcodeFinished)
  else ret (t, barcodeFinished).

Definition align_third_stage (barcodeSize : nat)
    (maxEditDistanceForSecondaryResults maxSecondaryAlignmentsToReturn : Z)
    (progressTracker : list TenXProgressTracker)
    : M (list TenXProgressTracker * bool) :=
  for_each_pair
    (third_stage_pair maxEditDistanceForSecondaryResults
                      maxSecondaryAlignmentsToReturn)
    (seq 0 barcodeSize) progressTracker true.

(** *** The entry point

    [align] reads its arguments [barcodeSize],
    [maxEditDistanceForSecondaryResults] and
    [maxSecondaryAlignmentsToReturn] only; reads, results and buffers are
    reached through the trackers. *)
Definition align (barcodeSize : nat)
    (maxEditDistanceForSecondaryResults maxSecondaryAlignmentsToReturn : Z)
    (progressTracker : list TenXProgressTracker)
    : M (list TenXProgressTracker * bool) :=
  r1 <- align_first_stage barcodeSize progressTracker ;;
  if snd r1 then ret (fst r1, true)
  else
    r2 <- align_second_stage barcodeSize maxEditDistanceForSecondaryResults
            maxSecondaryAlignmentsToReturn (fst r1) ;;
    if negb (snd r2) then ret (fst r2, false)
    else
      r3 <- align_third_stage barcodeSize maxEditDistanceForSecondaryResults
              maxSecondaryAlignmentsToReturn (fst r2) ;;
      if snd r3 then ret (fst r3, true) else ret (fst r3, false).

(** *** The caller's loop *)

(** Modelled from the spec: the caller of [align] is not part of the sources
    at hand.  It invokes [align] until the answer is that the barcode is
    finished; between two invocations it only gives the trackers buffers of
    other capacities.  [Buffers] is what it sets for the pair of a given
    index. *)
Record Buffers := {
  new_secondaryResultBufferSize : Z;
  new_singleSecondaryBufferSize : Z
}.

(** Modelled from the spec: what the caller does between two invocations. *)
Definition grow (b : nat -> Buffers) (progressTracker : list TenXProgressTracker)
    : list TenXProgressTracker :=
  imap (fun i t =>
          set_singleSecondaryBufferSize (new_singleSecondaryBufferSize (b i))
            (set_secondaryResultBufferSize
               (new_secondaryResultBufferSize (b i)) t))
       progressTracker.

(** Modelled from the spec: the caller's loop, as above.  One invocation,
    then one more for every element of [retries] as long as the barcode is
    not finished. *)
Fixpoint align_until_finished (barcodeSize : nat)
    (maxEditDistanceForSecondaryResults maxSecondaryAlignmentsToReturn : Z)
    (retries : list (nat -> Buffers))
    (progressTracker : list TenXProgressTracker)
    : M (list TenXProgressTracker * bool) :=
  r <- align barcodeSize maxEditDistanceForSecondaryResults
         maxSecondaryAlignmentsToReturn progressTracker ;;
  if snd r then ret r
  else
    match retries with
    | [] => ret r
    | b :: retries' =>
        align_until_finished barcodeSize maxEditDistanceForSecondaryResults
          maxSecondaryAlignmentsToReturn retries' (grow b (fst r))
    end.

(** ** The paths through the stages

    [emits m P]: whatever the world, [m] appends to the log a list of calls
    [l] and answers a value [a] with [P a l]. *)
Definition emits {A} (m : M A) (P : A -> list Call -> Prop) : Prop :=
  forall e, exists l, calls (snd (m e)) = calls e ++ l /\ P (fst (m e)) l.

(** The calls made for the pair of index [i]. *)
Definition calls_of (i : nat) (l : list Call) : list Call :=
  filter (fun c => call_pair c = i) l.

(** [active ts i]: the pair of index [i] is there and has [pairNotDone]. *)
Definition active (ts : list TenXProgressTracker) (i : nat) : bool :=
  match ts !! i with Some t => pairNotDone t | None => false end.

(** A sweep whose body follows [R] at every index. *)
Inductive Sweep
    (R : nat -> TenXProgressTracker -> bool ->
         TenXProgressTracker -> bool -> list Call -> Prop)
    : list nat -> list TenXProgressTracker -> bool ->
      list TenXProgressTracker -> bool -> list Call -> Prop :=
| Sweep_nil ts fin : Sweep R [] ts fin ts fin []
| Sweep_some i rest ts fin t t' fin1 l1 ts' fin' l2 :
    ts !! i = Some t ->
    R i t fin t' fin1 l1 ->
    Sweep R rest (<[i := t']> ts) fin1 ts' fin' l2 ->
    Sweep R (i :: rest) ts fin ts' fin' (l1 ++ l2)
| Sweep_none i rest ts fin ts' fin' l :
    ts !! i = None ->
    Sweep R rest ts fin ts' fin' l ->
    Sweep R (i :: rest) ts fin ts' fin' l.

(** The calls of a body are calls for the pair it is run on. *)
Definition local
    (R : nat -> TenXProgressTracker -> bool ->
         TenXProgressTracker -> bool -> list Call -> Prop) : Prop :=
  forall i t f t' f' l, R i t f t' f' l -> Forall (fun c => call_pair c = i) l.

(** A body never sets [barcodeFinished] again. *)
Definition falling
    (R : nat -> TenXProgressTracker -> bool ->
         TenXProgressTracker -> bool -> list Call -> Prop) : Prop :=
  forall i t f t' f' l, R i t f t' f' l -> f' = true -> f = true.

(** The paths through the body of the first loop of stage 1. *)
Inductive first_stage_step (i : nat) (t : TenXProgressTracker) (fin : bool)
    : TenXProgressTracker -> bool -> list Call -> Prop :=
| FS_skip :
    pairNotDone t = false -> first_stage_step i t fin t fin []
| FS_too_short :
    pairNotDone t = true -> both_too_short t = true ->
    first_stage_step i t fin (pair_too_short (status_not_found t)) fin []
| FS_one_short :
    pairNotDone t = true -> both_too_short t = false ->
    both_long_enough t = false ->
    first_stage_step i t fin (status_not_found t) false []
| FS_search_done skipped :
    pairNotDone t = true -> both_too_short t = false ->
    both_long_enough t = true ->
    first_stage_step i t fin
      (after_phase_1 (true, skipped) (status_not_found t)) false
      [CallPhase1 i]
| FS_search_more skipped more loci :
    pairNotDone t = true -> both_too_short t = false ->
    both_long_enough t = true ->
    first_stage_step i t fin
      (after_phase_2_init more loci
         (after_phase_1 (false, skipped) (status_not_found t))) false
      [CallPhase1 i; CallPhase2Init i; CallPhase2GetLoci i].

(** The body of the second loop of stage 1. *)
Definition to_target_step (i : nat) (t : TenXProgressTracker) (fin : bool)
    (t' : TenXProgressTracker) (fin' : bool) (l : list Call) : Prop :=
  t' = t /\ fin' = fin /\
  l = if pairNotDone t then [CallPhase2ToTargetLoc i clusterTargetLoc]
      else [].

(** The paths through the body of the loop of stage 2. *)
Inductive second_stage_step (i : nat) (t : TenXProgressTracker) (fin : bool)
    : TenXProgressTracker -> bool -> list Call -> Prop :=
| SS_skip :
    pairNotDone t = false -> second_stage_step i t fin t fin []
| SS_overflow o3 :
    pairNotDone t = true -> secondaryBufferOverflow o3 = true ->
    second_stage_step i t fin
      (paired_overflow (after_phase_3 o3 (reset_single_counts t))) false
      [CallPhase3 i (secondaryResultBufferSize t) true]
| SS_scored o3 o4 :
    pairNotDone t = true -> secondaryBufferOverflow o3 = false ->
    second_stage_step i t fin
      (paired_scored
         (after_phase_4 o4 (after_phase_3 o3 (reset_single_counts t)))) fin
      [CallPhase3 i (secondaryResultBufferSize t) false; CallPhase4 i].

(** The paths through the loop over the two reads of stage 3. *)
Inductive third_stage_reads_step (i : nat)
    : list nat -> TenXProgressTracker -> bool ->
      TenXProgressTracker -> bool -> bool -> list Call -> Prop :=
| TR_nil t fin : third_stage_reads_step i [] t fin t fin true []
| TR_too_short r rest t fin t' fin' noOverflow l :
    (getDataLength (arr2_get r (pairedReads t)) <? minReadLength cfg)%N
      = true ->
    third_stage_reads_step i rest (single_too_short r t) fin
                           t' fin' noOverflow l ->
    third_stage_reads_step i (r :: rest) t fin t' fin' noOverflow l
| TR_overflow r rest t fin o :
    (getDataLength (arr2_get r (pairedReads t)) <? minReadLength cfg)%N
      = false ->
    fitInSecondaryBuffer o = false ->
    third_stage_reads_step i (r :: rest) t fin
      (single_overflow
         (set_singleEndSecondaryResults (ar_secondaryResults o) t))
      false false
      [CallAlignRead i r (single_capacity t) (single_offset t) false]
| TR_fit r rest t fin o t' fin' noOverflow l :
    (getDataLength (arr2_get r (pairedReads t)) <? minReadLength cfg)%N
      = false ->
    fitInSecondaryBuffer o = true ->
    third_stage_reads_step i rest
      (single_fit r o
         (set_singleEndSecondaryResults (ar_secondaryResults o) t))
      fin t' fin' noOverflow l ->
    third_stage_reads_step i (r :: rest) t fin t' fin' noOverflow
      (CallAlignRead i r (single_capacity t) (single_offset t) true :: l).

(** The paths through the body of the outer loop of stage 3. *)
Inductive third_stage_step (i : nat) (t : TenXProgressTracker) (fin : bool)
    : TenXProgressTracker -> bool -> list Call -> Prop :=
| TS_skip :
    singleNotDone t = false -> third_stage_step i t fin t fin []
| TS_done t1 fin1 l :
    singleNotDone t = true ->
    third_stage_reads_step i (seq 0 NUM_READS_PER_PAIR) t fin t1 fin1 true l ->
    third_stage_step i t fin (single_done t1) fin1 l
| TS_overflow t1 fin1 l :
    singleNotDone t = true ->
    third_stage_reads_step i (seq 0 NUM_READS_PER_PAIR) t fin t1 fin1 false l ->
    third_stage_step i t fin t1 fin1 l.

(** The runs of [align_first_stage]: the sweep of the searches, then the
    sweep that moves the pairs to the target location. *)
Inductive first_stage_run (n : nat) (ts : list TenXProgressTracker)
    : list TenXProgressTracker -> bool -> list Call -> Prop :=
| FirstStageRun ts1 fin1 l1 ts' fin' l2 :
    Sweep first_stage_step (seq 0 n) ts true ts1 fin1 l1 ->
    Sweep to_target_step (seq 0 n) ts1 fin1 ts' fin' l2 ->
    first_stage_run n ts ts' fin' (l1 ++ l2).

(** The runs of [align]: it returns after stage 1, after stage 2 or after
    stage 3. *)
Inductive align_run (n : nat) (ts : list TenXProgressTracker)
    : list TenXProgressTracker -> bool -> list Call -> Prop :=
| AR_first ts1 l1 :
    first_stage_run n ts ts1 true l1 ->
    align_run n ts ts1 true l1
| AR_second ts1 l1 ts2 l2 :
    first_stage_run n ts ts1 false l1 ->
    Sweep second_stage_step (seq 0 n) ts1 true ts2 false l2 ->
    align_run n ts ts2 false (l1 ++ l2)
| AR_third ts1 l1 ts2 l2 ts3 fin3 l3 :
    first_stage_run n ts ts1 false l1 ->
    Sweep second_stage_step (seq 0 n) ts1 true ts2 true l2 ->
    Sweep third_stage_step (seq 0 n) ts2 true ts3 fin3 l3 ->
    align_run n ts ts3 fin3 (l1 ++ l2 ++ l3).

(** The call of the second loop of stage 1 for a pair. *)
Definition target_calls (i : nat) (t : TenXProgressTracker) : list Call :=
  if pairNotDone t then [CallPhase2ToTargetLoc i clusterTargetLoc] else [].

(** One invocation of [align], seen from the pair of index [i]: the tracker
    before, the tracker after, the answer of [align] and the calls made for
    the pair. *)
Inductive align_at (i : nat) (t : TenXProgressTracker)
    : TenXProgressTracker -> bool -> list Call -> Prop :=
| AA_first f t1 l1 :
    first_stage_step i t f t1 true l1 ->
    align_at i t t1 true (l1 ++ target_calls i t1)
| AA_second f t1 f1 l1 f2 t2 f2' l2 :
    first_stage_step i t f t1 f1 l1 ->
    second_stage_step i t1 f2 t2 f2' l2 ->
    align_at i t t2 false (l1 ++ target_calls i t1 ++ l2)
| AA_third f t1 f1 l1 f2 t2 l2 f3 t3 f3' l3 fin :
    first_stage_step i t f t1 f1 l1 ->
    second_stage_step i t1 f2 t2 true l2 ->
    third_stage_step i t2 f3 t3 f3' l3 ->
    (fin = true -> f3' = true) ->
    align_at i t t3 fin (l1 ++ target_calls i t1 ++ l2 ++ l3).

(** ** What a retry finds

    [only_clears t t']: from [t] to [t'] no flag has been set. *)
Definition only_clears (t t' : TenXProgressTracker) : Prop :=
  (pairNotDone t' = true -> pairNotDone t = true) /\
  (singleNotDone t' = true -> singleNotDone t = true).

Definition flags_only_clear
    (run : list TenXProgressTracker -> M (list TenXProgressTracker * bool))
    : Prop :=
  forall ts e i t t',
    ts !! i = Some t -> fst (fst (run ts e)) !! i = Some t' ->
    only_clears t t'.

(** The fields of the primary result that belong to the read [r]. *)
Definition mate_result (r : nat) (p : PairedAlignmentResult) :=
  (arr2_get r (status p), arr2_get r (location p), arr2_get r (direction p),
   arr2_get r (score p), arr2_get r (scorePriorToClipping p),
   arr2_get r (mapq p)).

(** What an overflow of the paired secondary buffer leaves as it was:
    everything but the three counts and what the scoring engine was given to
    write to (the paired secondary buffer and [popularSeedsSkipped]). *)
Definition kept_by_paired_overflow (t t' : TenXProgressTracker) : Prop :=
  pairNotDone t' = pairNotDone t /\ singleNotDone t' = singleNotDone t /\
  pairedReads t' = pairedReads t /\ aligner t' = aligner t /\
  result0 t' = result0 t /\
  secondaryResultBufferSize t' = secondaryResultBufferSize t /\
  singleSecondaryBufferSize t' = singleSecondaryBufferSize t /\
  singleEndSecondaryResults t' = singleEndSecondaryResults t /\
  nextLoci t' = nextLoci t /\ next t' = next t.

(** What an overflow of the single-end secondary buffer leaves as it was:
    everything but the three counts, the single-end secondary buffer and the
    fields of the first read in the primary result. *)
Definition kept_by_single_overflow (t t' : TenXProgressTracker) : Prop :=
  pairNotDone t' = pairNotDone t /\ singleNotDone t' = singleNotDone t /\
  pairedReads t' = pairedReads t /\ aligner t' = aligner t /\
  secondaryResults t' = secondaryResults t /\
  secondaryResultBufferSize t' = secondaryResultBufferSize t /\
  singleSecondaryBufferSize t' = singleSecondaryBufferSize t /\
  popularSeedsSkipped t' = popularSeedsSkipped t /\
  nextLoci t' = nextLoci t /\ next t' = next t /\
  mate_result 1 (result0 t') = mate_result 1 (result0 t) /\
  alignedAsPair (result0 t') = alignedAsPair (result0 t) /\
  fromAlignTogether (result0 t') = fromAlignTogether (result0 t) /\
  nanosInAlignTogether (result0 t') = nanosInAlignTogether (result0 t) /\
  nLVCalls (result0 t') = nLVCalls (result0 t) /\
  nSmallHits (result0 t') = nSmallHits (result0 t).

End Engines.

Arguments Sweep {ET} R _ _ _ _ _ _.
Arguments paired_scored : simpl never.

(** ** Scripted engines

    Engines without state whose answers are fixed in advance, to run the
    stages on concrete barcodes. *)

#[local] Instance script_types : EngineTypes :=
  {| World := unit; Loci := Z; double := Z; double_zero := 0%Z |}.

Record Script := {
  (* what align_phase_1 answers: true when it stops after phase 1 *)
  phase1_done : bool;
  (* what align_phase_2_init answers *)
  phase2_more : bool;
  (* how many secondary pairs the scoring of a pair finds *)
  paired_candidates : Z;
  (* the status phase 4 gives the two mates *)
  paired_status : Arr2 AlignmentResult;
  (* how many secondary results a read aligned alone has *)
  single_hits : Read -> Z
}.

Definition scripted_best : Best :=
  {| bestPairScore := 0%N; bestResultGenomeLocation := (100%Z, 300%Z);
     bestResultDirection := (FORWARD, RC); probabilityOfAllPairs := 1%Z;
     bestResultScore := (0%N, 0%N); probabilityOfBestPair := 1%Z |}.

Definition scripted (s : Script) : Engines :=
  {| align_phase_1 := fun w _ _ _ skipped => ((phase1_done s, skipped), w);
     align_phase_2_init := fun w _ => (phase2_more s, w);
     align_phase_2_get_loci := fun _ _ => 0%Z;
     align_phase_2_to_target_loc := fun w _ _ => w;
     align_phase_3 := fun w _ _ bufferSize nSecondary secondary _ _ _ skipped _ =>
       ({| secondaryBufferOverflow := (bufferSize <? paired_candidates s)%Z;
           p3_nSecondaryResults :=
             if (bufferSize <? paired_candidates s)%Z then nSecondary
             else paired_candidates s;
           p3_secondaryResults := secondary;
           p3_best := scripted_best;
           p3_popularSeedsSkipped := skipped |}, w);
     align_phase_4 := fun w _ _ _ res _ nSecondary secondary _ skipped _ =>
       ({| p4_result :=
             set_status 0 (fst (paired_status s))
               (set_status 1 (snd (paired_status s)) res);
           p4_nSecondaryResults := nSecondary;
           p4_secondaryResults := secondary;
           p4_popularSeedsSkipped := skipped |}, w);
     AlignRead := fun w read _ capacity _ _ buffer =>
       ({| fitInSecondaryBuffer := (single_hits s read <=? capacity)%Z;
           singleResult :=
             {| s_status := Found; s_location := 100%Z;
                s_direction := FORWARD; s_score := 1%Z;
                s_scorePriorToClipping := 1%Z; s_mapq := 60%Z |};
           singleEndSecondaryResultsThisTime :=
             if (single_hits s read <=? capacity)%Z then single_hits s read
             else 0%Z;
           ar_secondaryResults := buffer |}, w) |}.

Definition read_of (bases : string) : Read :=
  {| data := bases; getDataLength := N.of_nat (String.length bases) |}.

Definition no_result : PairedAlignmentResult :=
  {| location := (0%Z, 0%Z); direction := (FORWARD, FORWARD);
     score := (0%Z, 0%Z); scorePriorToClipping := (0%Z, 0%Z);
     mapq := (0%Z, 0%Z); status := (NotFound, NotFound);
     alignedAsPair := false; fromAlignTogether := false;
     nanosInAlignTogether := 0%Z; nLVCalls := 0%Z; nSmallHits := 0%Z |}.

(** Modelled from the spec: the caller's reset of a tracker is not part of
    the sources at hand; a pair starts in the paired search, with both flags
    set and nothing counted. *)
Definition fresh_tracker (a : AlignerId) (read0 read1 : Read)
    (pairedCapacity singleCapacity : Z) : TenXProgressTracker :=
  {| pairNotDone := true; singleNotDone := true;
     pairedReads := (read0, read1); aligner := a;
     result0 := no_result; secondaryResults := [];
     secondaryResultBufferSize := pairedCapacity; nSecondaryResults := 0%Z;
     singleSecondaryBufferSize := singleCapacity;
     nSingleEndSecondaryResultsForFirstRead := 0%Z;
     nSingleEndSecondaryResultsForSecondRead := 0%Z;
     singleEndSecondaryResults := []; popularSeedsSkipped := 0%N;
     nextLoci := 0%Z; next := None |}.

Definition start : Env := {| world := tt; calls := [] |}.

(** A pair whose search goes on to the scoring, with 5 secondary pairs. *)
Definition five_candidates : Script :=
  {| phase1_done := false; phase2_more := true; paired_candidates := 5%Z;
     paired_status := (Found, Found);
     single_hits := fun r => (Z.of_N (getDataLength r) - 6)%Z |}.

(** A pair whose search stops after phase 1. *)
Definition stops_after_phase_1 : Script :=
  {| phase1_done := true; phase2_more := true; paired_candidates := 0%Z;
     paired_status := (Found, Found);
     single_hits := fun r => (Z.of_N (getDataLength r) - 6)%Z |}.

Definition config (minLength : N) (force : bool) : Config :=
  {| minReadLength := minLength; forceSpacing := force |}.

Definition long_pair (pairedCapacity singleCapacity : Z)
    : TenXProgressTracker :=
  fresh_tracker 0 (read_of "ACGTACGT") (read_of "ACGTACGTACG")
                pairedCapacity singleCapacity.

Definition short_pair : TenXProgressTracker :=
  fresh_tracker 0 (read_of EmptyString) (read_of EmptyString) 2%Z 2%Z.

(** The caller's answer to an overflow: other capacities, for every pair. *)
Definition capacities (pairedCapacity singleCapacity : Z) : nat -> Buffers :=
  fun _ => {| new_secondaryResultBufferSize := pairedCapacity;
              new_singleSecondaryBufferSize := singleCapacity |}.

(** A pair that the scoring finds with its second mate missing. *)
Definition chimeric : Script :=
  {| phase1_done := false; phase2_more := true; paired_candidates := 5%Z;
     paired_status := (Found, NotFound);
     single_hits := fun r => (Z.of_N (getDataLength r) - 6)%Z |}.

(** A pair that stage 2 has handed to the single-end fallback, with
    [nSecondary] secondary paired results. *)
Definition fallback_pair (nSecondary pairedCapacity singleCapacity : Z)
    : TenXProgressTracker :=
  set_nSecondaryResults nSecondary
    (set_pairNotDone false (long_pair pairedCapacity singleCapacity)).

(** ** More to say about the calls and the trackers *)

(** A call whose answer is that a secondary buffer is too small. *)
Definition is_overflow (c : Call) : bool :=
  match c with
  | CallPhase3 _ _ overflow => overflow
  | CallAlignRead _ _ _ _ fit => negb fit
  | _ => false
  end.

(** [awaiting_single ts i]: the pair of index [i] is there and has
    [singleNotDone]. *)
Definition awaiting_single {ET : EngineTypes}
    (ts : list TenXProgressTracker) (i : nat) : bool :=
  match ts !! i with Some t => singleNotDone t | None => false end.

(** [read[r]->getDataLength() < minReadLength]. *)
Definition too_short {ET : EngineTypes} (cfg : Config) (r : nat)
    (t : TenXProgressTracker) : bool :=
  (getDataLength (arr2_get r (pairedReads t)) <? minReadLength cfg)%N.

(** ** A pair with one read too short *)

Definition mixed_pair (pairedCapacity singleCapacity : Z)
    : TenXProgressTracker :=
  fresh_tracker 0 (read_of "AC") (read_of "ACGTACGT")
                pairedCapacity singleCapacity.

(** * Compat.cpp *)

(** ** [memmem], the replacement for Visual C++

    Buffers are lists of bytes and pointers into [data] are offsets from its
    first byte; [NULL] is [None].  Lengths are those of the lists: a buffer
    in memory is shorter than [SIZE_MAX], so [dataLength - patternLength + 1]
    does not wrap. *)

(** [memchr(data + p, c, count)]: the first of [count] bytes from the offset
    [p] on that is [c].  A byte past the end of [data] is outside the
    buffer; the model stops there. *)
Fixpoint memchr (data : list Byte.byte) (p : nat) (c : Byte.byte)
    (count : nat) : option nat :=
  match count with
  | O => None
  | S count' =>
      match data !! p with
      | Some b => if Strings.Byte.eqb b c then Some p
                  else memchr data (S p) c count'
      | None => None
      end
  end.

(** [memcmp(a, b, n)]: 0 when the first [n] bytes are the same, otherwise
    the difference of the first two bytes that differ.  A buffer that ends
    before [n] bytes is outside the contract of [memcmp]; the model answers
    that the buffers differ. *)
Fixpoint memcmp (a b : list Byte.byte) (n : nat) {struct n} : Z :=
  match n with
  | O => 0%Z
  | S n' =>
      match a, b with
      | x :: a', y :: b' =>
          if Strings.Byte.eqb x y then memcmp a' b' n'
          else (Z.of_N (Strings.Byte.to_N x) - Z.of_N (Strings.Byte.to_N y))%Z
      | [], _ :: _ => (-1)%Z
      | _, [] => 1%Z
      end
  end.

(** The loop [while (count > 0)] of [memmem]; every iteration takes at least
    one from [count], so [fuel] from [count] on is enough. *)
Fixpoint memmem_loop (fuel : nat) (data pattern : list Byte.byte)
    (patternLength : nat) (first : Byte.byte) (p count : nat) : option nat :=
  match fuel with
  | O => None
  | S fuel' =>
      if (0 <? count)%nat then
        match memchr data p first count with
        | None => None
        | Some q =>
            if (0 =? memcmp (drop q data) pattern patternLength)%Z
            then Some q
            else memmem_loop fuel' data pattern patternLength first
                             (S q) (count - ((q - p) + 1))
        end
      else None
  end.

(** [memmem(data, dataLength, pattern, patternLength)].  With an empty
    pattern the source reads [*pattern] and one byte past the end of [data];
    nothing is said of that case, for which the model answers [None]. *)
Definition memmem (data pattern : list Byte.byte) : option nat :=
  let dataLength := length data in
  let patternLength := length pattern in
  if (dataLength <? patternLength)%nat then None
  else
    match pattern with
    | [] => None
    | first :: _ =>
        let count := dataLength - patternLength + 1 in
        memmem_loop count data pattern patternLength first 0 count
    end.

(** [occurs_at data pattern q]: the bytes of [pattern] are those of [data]
    from the offset [q] on. *)
Definition occurs_at (data pattern : list Byte.byte) (q : nat) : Prop :=
  take (length pattern) (drop q data) = pattern.

(** ** [WriteLargeFile] and [ReadLargeFile], for Windows

    [size_t] is 64 bits wide; [count -= step] and [bytes - count] wrap. *)
Definition size_sub (a b : N) : N := ((a + 2 ^ 64 - b mod 2 ^ 64) mod 2 ^ 64)%N.

(** One call of [WriteFile] or [ReadFile]: the offset, in the caller's
    buffer, of the pointer the call is given, the number of bytes asked for,
    whether the call succeeded and the number of bytes it reported in
    [step]. *)
Record Transfer := {
  at_offset : N;
  asked : N;
  succeeded : bool;
  reported : N
}.

(** The file behind the handle and the memory behind the buffer are the
    system's: a call is a function of the state of the system, of the
    pointer into the buffer and of the number of bytes asked for, and
    answers [(success, step)]. *)
Class FileSystem := {
  Files : Type;
  WriteFile : Files -> N -> N -> (bool * N) * Files;
  ReadFile : Files -> N -> N -> (bool * N) * Files
}.

(** The loop [while (count > 0)] that the two functions share, but for the
    call and the largest number of bytes asked for at once; it answers the
    value returned, the system and the calls made.  [fuel] bounds the
    iterations. *)
Fixpoint large_file_loop {Files : Type}
    (call : Files -> N -> N -> (bool * N) * Files) (atOnce : N)
    (fuel : nat) (fs : Files) (buffer bytes count : N) (log : list Transfer)
    : option (N * Files * list Transfer) :=
  match fuel with
  | O => None
  | S fuel' =>
      if (0 <? count)%N then
        let r := call fs buffer (N.min count atOnce) in
        let step := snd (fst r) in
        let log := log ++ [{| at_offset := buffer;
                              asked := N.min count atOnce;
                              succeeded := fst (fst r);
                              reported := step |}] in
        if negb (fst (fst r)) || (step =? 0)%N
        then Some (size_sub bytes count, snd r, log)
        else large_file_loop call atOnce fuel' (snd r) (buffer + step)%N
                             bytes (size_sub count step) log
      else Some (bytes, fs, log)
  end.

(** [WriteLargeFile(file, buffer, bytes)], with the buffer at offset 0. *)
Definition WriteLargeFile `{FileSystem} (fs : Files) (bytes : N)
    : option (N * Files * list Transfer) :=
  large_file_loop WriteFile 0x2000000%N (S (N.to_nat bytes)) fs 0%N bytes
                  bytes [].

(** [ReadLargeFile(file, buffer, bytes)], with the buffer at offset 0. *)
Definition ReadLargeFile `{FileSystem} (fs : Files) (bytes : N)
    : option (N * Files * list Transfer) :=
  large_file_loop ReadFile 0x1000000%N (S (N.to_nat bytes)) fs 0%N bytes
                  bytes [].

(** A call that succeeded and moved at least one byte. *)
Definition moved (tr : Transfer) : bool :=
  succeeded tr && negb (reported tr =? 0)%N.

(** The bytes moved by the calls of a log. *)
Definition transferred (log : list Transfer) : N :=
  fold_right (fun tr n => ((if moved tr then reported tr else 0) + n)%N) 0%N
             log.

(** Every call starts in the buffer where the calls before it have ended. *)
Definition contiguous (log : list Transfer) : Prop :=
  forall k tr, log !! k = Some tr -> at_offset tr = transferred (take k log).

(** What is asked of one call: at least one byte, at most [atOnce], within
    the buffer of [bytes] bytes. *)
Definition within (atOnce bytes : N) (tr : Transfer) : Prop :=
  (1 <= asked tr <= atOnce)%N /\ (at_offset tr + asked tr <= bytes)%N.

(** The system never reports more bytes than it was asked for. *)
Definition never_reports_more {Files : Type}
    (call : Files -> N -> N -> (bool * N) * Files) : Prop :=
  forall fs buffer n, (snd (fst (call fs buffer n)) <= n)%N.

(** A system that moves at most [most] bytes per call, and fails once
    [failing] is set. *)
Definition slow_disk (most : N) : FileSystem :=
  {| Files := bool;
     WriteFile := fun failing _ n => ((negb failing, N.min n most), failing);
     ReadFile := fun failing _ n => ((negb failing, N.min n most), failing) |}.

(** ** The clocks, for POSIX *)

Record timeval := { tv_sec : Z; tv_usec : Z }.

(** [timeInMillis], from what [gettimeofday] has written. *)
Definition timeInMillis (t : timeval) : Z :=
  wrap64 (wrap64 (tv_sec t * 1000) + Z.quot (tv_usec t) 1000).

Record timespec := { ts_sec : Z; ts_nsec : Z }.

(** [timeInNanos], from what [clock_gettime] has written. *)
Definition timeInNanos (ts : timespec) : Z :=
  wrap64 (wrap64 (ts_sec ts * 1000000000) + ts_nsec ts).

(** * Properties *)

Section Properties.
Context `{E : Engines} (cfg : Config).

(** ** The monad and its log *)

Lemma emits_ret {A} (a : A) (P : A -> list Call -> Prop) :
  P a [] -> emits (ret a) P.
Proof.
  intros HP e. exists []. simpl. rewrite app_nil_r. auto.
Qed.

Lemma emits_bind {A B} (m : M A) (k : A -> M B)
    (Q : A -> list Call -> Prop) (P : B -> list Call -> Prop) :
  emits m Q ->
  (forall a l1, Q a l1 -> emits (k a) (fun b l2 => P b (l1 ++ l2))) ->
  emits (bind m k) P.
Proof.
  intros Hm Hk e. unfold bind.
  destruct (Hm e) as (l1 & Hl1 & HQ).
  destruct (m e) as [a e1]; simpl in *.
  destruct (Hk a l1 HQ e1) as (l2 & Hl2 & HP).
  exists (l1 ++ l2). rewrite Hl2, Hl1, app_assoc. auto.
Qed.

Lemma emits_logged {A} (c : A -> Call) (f : World -> A * World) :
  emits (logged c f) (fun a l => l = [c a]).
Proof.
  intros e. unfold logged. destruct (f (world e)) as [a w]; simpl. eauto.
Qed.

Lemma emits_weaken {A} (m : M A) (P Q : A -> list Call -> Prop) :
  emits m P -> (forall a l, P a l -> Q a l) -> emits m Q.
Proof.
  intros Hm HPQ e. destruct (Hm e) as (l & Hl & HP). eauto.
Qed.

(** A call answers something and logs exactly one entry. *)
Ltac step_call :=
  eapply emits_bind; [apply emits_logged | cbv beta; intros ? ? ->].

(** ** Every run of a body is one of its paths *)

Lemma for_each_pair_emits body R idxs :
  (forall i t fin,
     emits (body i t fin) (fun r l => R i t fin (fst r) (snd r) l)) ->
  forall ts fin,
    emits (for_each_pair body idxs ts fin)
          (fun r l => Sweep R idxs ts fin (fst r) (snd r) l).
Proof.
  intros Hbody. induction idxs as [|i rest IH]; intros ts fin; simpl.
  - apply emits_ret. constructor.
  - destruct (ts !! i) as [t|] eqn:Hi.
    + eapply emits_bind; [apply Hbody|].
      intros [t' fin1] l1 HR; simpl in *.
      eapply emits_weaken; [apply IH|].
      intros [ts' fin'] l2 HS; simpl in *.
      eapply Sweep_some; eauto.
    + eapply emits_weaken; [apply IH|].
      intros [ts' fin'] l HS. apply Sweep_none; auto.
Qed.

Lemma first_stage_pair_emits i t fin :
  emits (first_stage_pair cfg i t fin)
        (fun r l => first_stage_step cfg i t fin (fst r) (snd r) l).
Proof.
  unfold first_stage_pair.
  destruct (pairNotDone t) eqn:Hp; [|apply emits_ret; constructor; auto].
  change (both_too_short cfg (status_not_found t))
    with (both_too_short cfg t).
  change (both_long_enough cfg (status_not_found t))
    with (both_long_enough cfg t).
  destruct (both_too_short cfg t) eqn:Hs;
    [apply emits_ret; constructor; auto|].
  destruct (both_long_enough cfg t) eqn:Hl;
    [|apply emits_ret; constructor; auto].
  step_call. destruct a as [[|] skipped]; simpl.
  - apply emits_ret. simpl. apply FS_search_done; auto.
  - step_call. step_call. apply emits_ret. simpl.
    apply FS_search_more; auto.
Qed.

Lemma to_target_pair_emits i t fin :
  emits (to_target_pair i t fin)
        (fun r l => to_target_step i t fin (fst r) (snd r) l).
Proof.
  unfold to_target_pair, to_target_step.
  destruct (pairNotDone t).
  - step_call. apply emits_ret. auto.
  - apply emits_ret. auto.
Qed.

Lemma second_stage_pair_emits maxEdit maxReturn i t fin :
  emits (second_stage_pair cfg maxEdit maxReturn i t fin)
        (fun r l => second_stage_step cfg i t fin (fst r) (snd r) l).
Proof.
  unfold second_stage_pair.
  destruct (pairNotDone t) eqn:Hp; [|apply emits_ret; constructor; auto].
  step_call. rename a into o3.
  destruct (secondaryBufferOverflow o3) eqn:Ho.
  - apply emits_ret. simpl. apply SS_overflow; auto.
  - step_call. apply emits_ret. simpl. apply SS_scored; auto.
Qed.

Lemma third_stage_reads_emits maxEdit maxReturn i rs :
  forall t fin,
    emits (third_stage_reads cfg maxEdit maxReturn i rs t fin)
          (fun r l => third_stage_reads_step cfg i rs t fin
                        (fst (fst r)) (snd (fst r)) (snd r) l).
Proof.
  induction rs as [|r rest IH]; intros t fin; simpl.
  - apply emits_ret. constructor.
  - destruct (getDataLength (arr2_get r (pairedReads t))
              <? minReadLength cfg)%N eqn:Hlen.
    + eapply emits_weaken; [apply IH|].
      intros [[t' fin'] no] l H; simpl in *.
      apply TR_too_short; auto.
    + step_call. rename a into o.
      destruct (fitInSecondaryBuffer o) eqn:Hfit; simpl.
      * eapply emits_weaken; [apply IH|].
        intros [[t' fin'] no] l H; simpl in *.
        eapply TR_fit; eauto.
      * apply emits_ret. simpl. apply TR_overflow; auto.
Qed.

Lemma third_stage_pair_emits maxEdit maxReturn i t fin :
  emits (third_stage_pair cfg maxEdit maxReturn i t fin)
        (fun r l => third_stage_step cfg i t fin (fst r) (snd r) l).
Proof.
  unfold third_stage_pair.
  destruct (singleNotDone t) eqn:Hs; [|apply emits_ret; constructor; auto].
  eapply emits_bind; [apply third_stage_reads_emits|].
  intros [[t1 fin1] [|]] l1 H; simpl in *; apply emits_ret;
    rewrite app_nil_r.
  - apply TS_done; auto.
  - apply TS_overflow; auto.
Qed.

(** ** Sweeps *)

Section Sweeps.
Variable R : nat -> TenXProgressTracker -> bool ->
             TenXProgressTracker -> bool -> list Call -> Prop.

Lemma calls_of_app i l1 l2 :
  calls_of i (l1 ++ l2) = calls_of i l1 ++ calls_of i l2.
Proof. apply filter_app. Qed.

Lemma calls_of_same i l :
  Forall (fun c => call_pair c = i) l -> calls_of i l = l.
Proof.
  induction 1 as [|c l Hc _ IH]; [reflexivity|].
  unfold calls_of in *. rewrite filter_cons_True by exact Hc. congruence.
Qed.

Lemma calls_of_other i j l :
  i <> j -> Forall (fun c => call_pair c = j) l -> calls_of i l = [].
Proof.
  intros Hij. induction 1 as [|c l Hc _ IH]; [reflexivity|].
  unfold calls_of in *. rewrite filter_cons_False by congruence. exact IH.
Qed.

Lemma sweep_length idxs ts fin ts' fin' l :
  Sweep R idxs ts fin ts' fin' l -> length ts' = length ts.
Proof.
  induction 1; auto. rewrite IHSweep. apply length_insert.
Qed.

Lemma sweep_falling idxs ts fin ts' fin' l :
  falling R -> Sweep R idxs ts fin ts' fin' l -> fin' = true -> fin = true.
Proof.
  intros HR. induction 1; eauto.
Qed.

Lemma sweep_elsewhere idxs ts fin ts' fin' l i :
  local R -> Sweep R idxs ts fin ts' fin' l ->
  ~ In i idxs \/ ts !! i = None ->
  ts' !! i = ts !! i /\ calls_of i l = [].
Proof.
  intros HR. induction 1 as [| j rest ts fin t t' fin1 l1 ts' fin' l2 Hj Hstep _ IH
                             | j rest ts fin ts' fin' l Hj _ IH]; intros Hi.
  - auto.
  - assert (Hne : i <> j).
    { destruct Hi as [Hi|Hi]; [intros ->; apply Hi; left; auto|congruence]. }
    destruct IH as [IH1 IH2].
    { destruct Hi as [Hi|Hi]; [left; intros Hin; apply Hi; right; auto|].
      right. rewrite list_lookup_insert_ne by auto. exact Hi. }
    rewrite IH1, list_lookup_insert_ne by auto. split; [reflexivity|].
    rewrite calls_of_app, IH2, app_nil_r.
    eapply calls_of_other; eauto.
  - apply IH. destruct Hi as [Hi|Hi]; [left; intros Hin; apply Hi; right|];
      auto.
Qed.

(** What a sweep over distinct indexes does to the pair of index [i]. *)
Lemma sweep_at idxs ts fin ts' fin' l i t :
  local R -> falling R -> NoDup idxs ->
  Sweep R idxs ts fin ts' fin' l ->
  In i idxs -> ts !! i = Some t ->
  exists f t' f',
    R i t f t' f' (calls_of i l) /\ ts' !! i = Some t' /\
    (fin' = true -> f' = true) /\ (f = true -> fin = true).
Proof.
  intros Hloc Hfall Hnd HS. revert Hnd.
  induction HS as [| j rest ts fin t0 t' fin1 l1 ts' fin' l2 Hj Hstep HS IH
                   | j rest ts fin ts' fin' l Hj _ IH]; intros Hnd Hin Hi.
  - destruct Hin.
  - apply NoDup_cons in Hnd as [Hnotin Hnd].
    destruct (decide (i = j)) as [->|Hne].
    + assert (t0 = t) by congruence; subst t0.
      destruct (sweep_elsewhere _ _ _ _ _ _ j Hloc HS) as [Hl Hc].
      { left. rewrite <- list_elem_of_In. exact Hnotin. }
      exists fin, t', fin1.
      rewrite calls_of_app, Hc, app_nil_r, (calls_of_same j l1) by eauto.
      rewrite Hl, list_lookup_insert_eq by (eapply lookup_lt_Some; eauto).
      repeat split; auto. eapply sweep_falling; eauto.
    + destruct IH as (f & t1 & f' & HR & Hl & Hf & Hf0); auto.
      { destruct Hin as [Hin|Hin]; [congruence|auto]. }
      { rewrite list_lookup_insert_ne by auto. exact Hi. }
      exists f, t1, f'.
      rewrite calls_of_app, (calls_of_other i j l1), app_nil_l by eauto.
      repeat split; eauto.
  - apply NoDup_cons in Hnd as [_ Hnd].
    destruct Hin as [Hin|Hin]; [congruence|]. apply IH; auto.
Qed.

End Sweeps.

(** The four bodies are [local] and [falling]. *)

Lemma first_stage_local : local (first_stage_step cfg).
Proof.
  intros i t f t' f' l H. destruct H; repeat constructor.
Qed.

Lemma first_stage_falling : falling (first_stage_step cfg).
Proof.
  intros i t f t' f' l H. destruct H; auto; discriminate.
Qed.

Lemma to_target_local : local to_target_step.
Proof.
  intros i t f t' f' l (_ & _ & ->). destruct (pairNotDone t);
    repeat constructor.
Qed.

Lemma to_target_falling : falling to_target_step.
Proof.
  intros i t f t' f' l (_ & -> & _). auto.
Qed.

Lemma second_stage_local : local (second_stage_step cfg).
Proof.
  intros i t f t' f' l H. destruct H; repeat constructor.
Qed.

Lemma second_stage_falling : falling (second_stage_step cfg).
Proof.
  intros i t f t' f' l H. destruct H; auto; discriminate.
Qed.

Lemma third_stage_reads_local i rs t f t' f' no l :
  third_stage_reads_step cfg i rs t f t' f' no l ->
  Forall (fun c => call_pair c = i) l.
Proof.
  induction 1; repeat constructor; auto.
Qed.

Lemma third_stage_reads_falling i rs t f t' f' no l :
  third_stage_reads_step cfg i rs t f t' f' no l -> f' = true -> f = true.
Proof.
  induction 1; auto; discriminate.
Qed.

Lemma third_stage_local : local (third_stage_step cfg).
Proof.
  intros i t f t' f' l H.
  destruct H; [constructor| |]; eapply third_stage_reads_local; eauto.
Qed.

Lemma third_stage_falling : falling (third_stage_step cfg).
Proof.
  intros i t f t' f' l H.
  destruct H; auto; eapply third_stage_reads_falling; eauto.
Qed.

(** ** The stages as sweeps *)

Lemma seq_NoDup k n : NoDup (seq k n).
Proof. apply NoDup_ListNoDup, List.seq_NoDup. Qed.

Lemma align_first_stage_emits n ts :
  emits (align_first_stage cfg n ts)
        (fun r l => first_stage_run cfg n ts (fst r) (snd r) l).
Proof.
  unfold align_first_stage.
  eapply emits_bind.
  { apply for_each_pair_emits, first_stage_pair_emits. }
  intros [ts1 fin1] l1 H1; simpl in *.
  eapply emits_weaken.
  { apply for_each_pair_emits, to_target_pair_emits. }
  intros [ts' fin'] l2 H2; simpl in *. econstructor; eauto.
Qed.

Lemma align_second_stage_emits n maxEdit maxReturn ts :
  emits (align_second_stage cfg n maxEdit maxReturn ts)
        (fun r l => Sweep (second_stage_step cfg) (seq 0 n) ts true
                          (fst r) (snd r) l).
Proof. apply for_each_pair_emits, second_stage_pair_emits. Qed.

Lemma align_third_stage_emits n maxEdit maxReturn ts :
  emits (align_third_stage cfg n maxEdit maxReturn ts)
        (fun r l => Sweep (third_stage_step cfg) (seq 0 n) ts true
                          (fst r) (snd r) l).
Proof. apply for_each_pair_emits, third_stage_pair_emits. Qed.

Lemma align_emits n maxEdit maxReturn ts :
  emits (align cfg n maxEdit maxReturn ts)
        (fun r l => align_run cfg n ts (fst r) (snd r) l).
Proof.
  unfold align.
  eapply emits_bind; [apply align_first_stage_emits|].
  intros [ts1 [|]] l1 H1; simpl in *.
  { apply emits_ret. simpl. rewrite app_nil_r. apply AR_first; auto. }
  eapply emits_bind; [apply align_second_stage_emits|].
  intros [ts2 [|]] l2 H2; simpl in *.
  - eapply emits_bind; [apply align_third_stage_emits|].
    intros [ts3 fin3] l3 H3; simpl in *.
    destruct fin3; apply emits_ret; simpl; rewrite app_nil_r;
      eapply AR_third; eauto.
  - apply emits_ret. simpl. rewrite app_nil_r. eapply AR_second; eauto.
Qed.

(** The second loop of stage 1 leaves the trackers and the flag alone, and
    calls the engine of every pair that has [pairNotDone]. *)
Lemma sweep_to_target idxs ts fin ts' fin' l :
  Sweep to_target_step idxs ts fin ts' fin' l ->
  ts' = ts /\ fin' = fin /\
  l = map (fun i => CallPhase2ToTargetLoc i clusterTargetLoc)
          (filter (fun i => active ts i = true) idxs).
Proof.
  induction 1 as [| j rest ts fin t t' fin1 l1 ts' fin' l2 Hj Hstep _ IH
                  | j rest ts fin ts' fin' l Hj _ IH].
  - auto.
  - destruct Hstep as (-> & -> & ->).
    rewrite list_insert_id in IH by exact Hj.
    destruct IH as (-> & -> & ->). repeat split.
    assert (Ha : active ts j = pairNotDone t) by (unfold active; rewrite Hj; auto).
    destruct (pairNotDone t).
    + rewrite filter_cons_True by exact Ha. reflexivity.
    + rewrite filter_cons_False by congruence. reflexivity.
  - destruct IH as (-> & -> & ->). repeat split.
    rewrite filter_cons_False; [reflexivity|].
    unfold active. rewrite Hj. discriminate.
Qed.

(** ** One invocation, pair by pair *)

Lemma first_stage_run_at n ts ts' fin l i t :
  first_stage_run cfg n ts ts' fin l -> i < n -> ts !! i = Some t ->
  exists f t1 f1 l1,
    first_stage_step cfg i t f t1 f1 l1 /\ ts' !! i = Some t1 /\
    (fin = true -> f1 = true) /\ calls_of i l = l1 ++ target_calls i t1.
Proof.
  intros [ts1 fin1 l1 ts2 fin2 l2 H1 H2] Hi Ht.
  assert (Hin : In i (seq 0 n)) by (apply in_seq; lia).
  destruct (sweep_at _ _ _ _ _ _ _ i t first_stage_local
              first_stage_falling (seq_NoDup 0 n) H1 Hin Ht)
    as (f & t1 & f1 & Hstep & Ht1 & Hf1 & _).
  destruct (sweep_at _ _ _ _ _ _ _ i t1 to_target_local
              to_target_falling (seq_NoDup 0 n) H2 Hin Ht1)
    as (g & t2 & g1 & (-> & -> & Hc) & Ht2 & Hg1 & Hg).
  exists f, t1, f1, (calls_of i l1). repeat split; auto.
  rewrite calls_of_app, Hc. reflexivity.
Qed.

Lemma first_stage_run_elsewhere n ts ts' fin l i :
  first_stage_run cfg n ts ts' fin l -> n <= i \/ ts !! i = None ->
  ts' !! i = ts !! i /\ calls_of i l = [].
Proof.
  intros [ts1 fin1 l1 ts2 fin2 l2 H1 H2] Hi.
  assert (Hout : ~ In i (seq 0 n) \/ ts !! i = None).
  { destruct Hi; [left; rewrite in_seq; lia|auto]. }
  destruct (sweep_elsewhere _ _ _ _ _ _ _ i first_stage_local H1 Hout)
    as [Ha Hb].
  destruct (sweep_elsewhere _ _ _ _ _ _ _ i to_target_local H2) as [Hc Hd].
  { destruct Hout; [auto|right; congruence]. }
  rewrite calls_of_app, Hb, Hd, Hc, Ha. auto.
Qed.

Lemma align_run_at n ts ts' fin l i t :
  align_run cfg n ts ts' fin l -> i < n -> ts !! i = Some t ->
  exists t', ts' !! i = Some t' /\ align_at cfg i t t' fin (calls_of i l).
Proof.
  intros Hrun Hi Ht.
  assert (Hin : In i (seq 0 n)) by (apply in_seq; lia).
  destruct Hrun as [ts1 l1 H1 | ts1 l1 ts2 l2 H1 H2
                    | ts1 l1 ts2 l2 ts3 fin3 l3 H1 H2 H3];
    destruct (first_stage_run_at _ _ _ _ _ i t H1 Hi Ht)
      as (f & t1 & f1 & k1 & Hs1 & Ht1 & Hf1 & Hc1).
  - exists t1. split; [auto|]. rewrite Hc1.
    rewrite Hf1 in Hs1 by reflexivity. eapply AA_first; eauto.
  - destruct (sweep_at _ _ _ _ _ _ _ i t1 second_stage_local
                second_stage_falling (seq_NoDup 0 n) H2 Hin Ht1)
      as (f2 & t2 & f2' & Hs2 & Ht2 & _ & _).
    exists t2. split; [auto|]. rewrite calls_of_app, Hc1, <- app_assoc.
    eapply AA_second; eauto.
  - destruct (sweep_at _ _ _ _ _ _ _ i t1 second_stage_local
                second_stage_falling (seq_NoDup 0 n) H2 Hin Ht1)
      as (f2 & t2 & f2' & Hs2 & Ht2 & Hf2 & _).
    destruct (sweep_at _ _ _ _ _ _ _ i t2 third_stage_local
                third_stage_falling (seq_NoDup 0 n) H3 Hin Ht2)
      as (f3 & t3 & f3' & Hs3 & Ht3 & Hf3 & _).
    exists t3. split; [auto|].
    rewrite !calls_of_app, Hc1, <- app_assoc.
    rewrite Hf2 in Hs2 by reflexivity. eapply AA_third; eauto.
Qed.

Lemma align_run_elsewhere n ts ts' fin l i :
  align_run cfg n ts ts' fin l -> n <= i \/ ts !! i = None ->
  ts' !! i = ts !! i /\ calls_of i l = [].
Proof.
  intros Hrun Hi.
  assert (Hout : forall ts0 : list TenXProgressTracker,
            ts0 !! i = ts !! i -> ~ In i (seq 0 n) \/ ts0 !! i = None).
  { intros ts0 H0. destruct Hi; [left; rewrite in_seq; lia|].
    right. congruence. }
  destruct Hrun as [ts1 l1 H1 | ts1 l1 ts2 l2 H1 H2
                    | ts1 l1 ts2 l2 ts3 fin3 l3 H1 H2 H3];
    destruct (first_stage_run_elsewhere _ _ _ _ _ i H1 Hi) as [Ha Hb].
  - auto.
  - destruct (sweep_elsewhere _ _ _ _ _ _ _ i second_stage_local H2
                (Hout _ Ha)) as [Hc Hd].
    rewrite calls_of_app, Hb, Hd, Hc, Ha. auto.
  - destruct (sweep_elsewhere _ _ _ _ _ _ _ i second_stage_local H2
                (Hout _ Ha)) as [Hc Hd].
    destruct (sweep_elsewhere _ _ _ _ _ _ _ i third_stage_local H3)
      as [He Hf].
    { apply Hout. congruence. }
    rewrite !calls_of_app, Hb, Hd, Hf, He, Hc, Ha. auto.
Qed.

(** ** What the bodies do to the flags *)

Ltac case_if :=
  match goal with
  | |- context [if ?b then _ else _] => destruct b eqn:?
  end.

Lemma paired_scored_pairNotDone t : pairNotDone (paired_scored cfg t) = false.
Proof.
  unfold paired_scored. repeat case_if; reflexivity.
Qed.

Lemma paired_scored_singleNotDone t :
  singleNotDone (paired_scored cfg t) = true -> singleNotDone t = true.
Proof.
  unfold paired_scored. repeat case_if; simpl; auto; discriminate.
Qed.

Lemma first_stage_step_flags i t f t' f' l :
  first_stage_step cfg i t f t' f' l ->
  (pairNotDone t' = true -> pairNotDone t = true) /\
  (singleNotDone t' = true -> singleNotDone t = true).
Proof.
  intros H. destruct H; simpl; split; intros; auto; congruence.
Qed.

Lemma second_stage_step_flags i t f t' f' l :
  second_stage_step cfg i t f t' f' l ->
  (pairNotDone t' = true -> pairNotDone t = true) /\
  (singleNotDone t' = true -> singleNotDone t = true).
Proof.
  intros H. destruct H; simpl; split; intros Hs; auto.
  apply paired_scored_singleNotDone in Hs. exact Hs.
Qed.

Lemma third_stage_reads_step_flags i rs t f t' f' no l :
  third_stage_reads_step cfg i rs t f t' f' no l ->
  pairNotDone t' = pairNotDone t /\ singleNotDone t' = singleNotDone t.
Proof.
  induction 1 as [| r rest t fin t' fin' no l _ _ IH | | r rest t fin o t' fin' no l _ _ _ IH];
    simpl in *; auto.
  unfold single_fit, set_counter in IH.
  destruct (arr2_get r resultCount); exact IH.
Qed.

Lemma third_stage_step_flags i t f t' f' l :
  third_stage_step cfg i t f t' f' l ->
  pairNotDone t' = pairNotDone t /\
  (singleNotDone t' = true -> singleNotDone t = true).
Proof.
  intros H. destruct H as [Hs | t1 fin1 l Hs Hr | t1 fin1 l Hs Hr]; auto;
    apply third_stage_reads_step_flags in Hr as [Hp Hq]; simpl; split;
    congruence.
Qed.

(** ** Counting the searches of a pair *)

Lemma count_calls_app p l1 l2 :
  count_calls p (l1 ++ l2) = count_calls p l1 + count_calls p l2.
Proof.
  unfold count_calls. rewrite List.filter_app, length_app. reflexivity.
Qed.

Lemma count_calls_none p l :
  Forall (fun c => p c = false) l -> count_calls p l = 0.
Proof.
  unfold count_calls. induction 1 as [|c l Hc _ IH]; [reflexivity|].
  simpl. rewrite Hc. exact IH.
Qed.

(** A call counted for the pair [i] is a call for the pair [i]. *)
Lemma count_calls_of p i l :
  (forall c, p c = true -> call_pair c = i) ->
  count_calls p (calls_of i l) = count_calls p l.
Proof.
  intros Hp. unfold count_calls, calls_of.
  induction l as [|c l IH]; [reflexivity|].
  destruct (decide (call_pair c = i)) as [Hc|Hc].
  - rewrite filter_cons_True by exact Hc. simpl.
    destruct (p c); simpl; congruence.
  - rewrite filter_cons_False by exact Hc. simpl.
    destruct (p c) eqn:Hpc; [|exact IH].
    exfalso. apply Hc, Hp, Hpc.
Qed.

Lemma is_phase1_of_pair i c : is_phase1_of i c = true -> call_pair c = i.
Proof.
  destruct c; simpl; try discriminate. intros H.
  apply Nat.eqb_eq in H. auto.
Qed.

Lemma is_overflow3_of_pair i c : is_overflow3_of i c = true -> call_pair c = i.
Proof.
  destruct c as [| | | |j b [|]| |]; simpl; try discriminate. intros H.
  apply Nat.eqb_eq in H. auto.
Qed.

Lemma third_stage_reads_single_end i rs t f t' f' no l :
  third_stage_reads_step cfg i rs t f t' f' no l ->
  Forall (fun c => is_single_end c = true) l.
Proof.
  induction 1; repeat constructor; auto.
Qed.

Lemma third_stage_single_end i t f t' f' l :
  third_stage_step cfg i t f t' f' l ->
  Forall (fun c => is_single_end c = true) l.
Proof.
  intros H. destruct H; [constructor| |];
    eapply third_stage_reads_single_end; eauto.
Qed.

Lemma single_end_counts (p : Call -> bool) l :
  (forall c, is_single_end c = true -> p c = false) ->
  Forall (fun c => is_single_end c = true) l -> count_calls p l = 0.
Proof.
  intros Hp Hl. apply count_calls_none.
  eapply Forall_impl; [exact Hl|]. exact Hp.
Qed.

Lemma target_calls_counts (p : Call -> bool) i t :
  (forall c, is_to_target c = true -> p c = false) ->
  count_calls p (target_calls i t) = 0.
Proof.
  intros Hp. unfold target_calls. destruct (pairNotDone t); [|reflexivity].
  apply count_calls_none. repeat constructor. apply Hp. reflexivity.
Qed.

Lemma first_stage_step_counts i t f t1 f1 l1 :
  first_stage_step cfg i t f t1 f1 l1 ->
  count_calls (is_phase1_of i) l1 <= 1 /\
  count_calls (is_overflow3_of i) l1 = 0 /\
  (pairNotDone t = false -> count_calls (is_phase1_of i) l1 = 0) /\
  (f1 = true -> count_calls (is_phase1_of i) l1 = 0).
Proof.
  intros H. destruct H; unfold count_calls; simpl;
    rewrite ?Nat.eqb_refl; simpl; repeat split; intros; try lia; congruence.
Qed.

Lemma second_stage_step_counts i t1 f t2 f' l2 :
  second_stage_step cfg i t1 f t2 f' l2 ->
  count_calls (is_phase1_of i) l2 = 0 /\
  (pairNotDone t2 = true -> count_calls (is_overflow3_of i) l2 = 1).
Proof.
  intros H. destruct H; unfold count_calls; simpl;
    rewrite ?Nat.eqb_refl; simpl; (split; [reflexivity|intros Hp]); auto;
    try congruence.
  rewrite paired_scored_pairNotDone in Hp. discriminate.
Qed.

(** One invocation, seen from the pair [i]: at most one search; none for a
    pair that was not in the paired stage; and a pair that is still in the
    paired stage afterwards was searched only if its scoring overflowed. *)
Lemma align_at_searches i t t' fin l :
  align_at cfg i t t' fin l ->
  count_calls (is_phase1_of i) l <= 1 /\
  (pairNotDone t = false -> count_calls (is_phase1_of i) l = 0) /\
  (pairNotDone t' = true ->
   count_calls (is_phase1_of i) l <= count_calls (is_overflow3_of i) l) /\
  (pairNotDone t' = true -> pairNotDone t = true).
Proof.
  assert (Hsingle1 : forall c, is_single_end c = true ->
                               is_phase1_of i c = false)
    by (intros []; simpl; congruence).
  assert (Htarget1 : forall c, is_to_target c = true ->
                               is_phase1_of i c = false)
    by (intros []; simpl; congruence).
  intros H.
  destruct H as [f t1 l1 H1 | f t1 f1 l1 f2 t2 f2' l2 H1 H2
                 | f t1 f1 l1 f2 t2 l2 f3 t3 f3' l3 fin H1 H2 H3 Hfin];
    rewrite !count_calls_app, !(target_calls_counts _ _ _ Htarget1);
    destruct (first_stage_step_counts _ _ _ _ _ _ H1) as (Ha & Hb & Hc & Hd);
    destruct (first_stage_step_flags _ _ _ _ _ _ H1) as [He _].
  - specialize (Hd eq_refl). repeat split; intros; auto; lia.
  - destruct (second_stage_step_counts _ _ _ _ _ _ H2) as [Hf Hg].
    destruct (second_stage_step_flags _ _ _ _ _ _ H2) as [Hh _].
    repeat split; intros; auto; try lia.
    + rewrite Hc by assumption. lia.
    + rewrite Hg by assumption. lia.
  - destruct (second_stage_step_counts _ _ _ _ _ _ H2) as [Hf Hg].
    destruct (second_stage_step_flags _ _ _ _ _ _ H2) as [Hh _].
    destruct (third_stage_step_flags _ _ _ _ _ _ H3) as [Hi _].
    rewrite (single_end_counts _ l3 Hsingle1
               (third_stage_single_end _ _ _ _ _ _ H3)).
    rewrite Hi.
    repeat split; intros; auto; try lia.
    + rewrite Hc by assumption. lia.
    + rewrite Hg by assumption. lia.
Qed.

Lemma align_run_searches n ts ts' fin l i :
  align_run cfg n ts ts' fin l ->
  count_calls (is_phase1_of i) l <= 1 /\
  (active ts i = false -> count_calls (is_phase1_of i) l = 0) /\
  (active ts' i = true ->
   count_calls (is_phase1_of i) l <= count_calls (is_overflow3_of i) l) /\
  (active ts' i = true -> active ts i = true).
Proof.
  intros Hrun.
  rewrite <- (count_calls_of (is_phase1_of i) i l)
    by apply is_phase1_of_pair.
  rewrite <- (count_calls_of (is_overflow3_of i) i l)
    by apply is_overflow3_of_pair.
  destruct (ts !! i) as [t|] eqn:Ht.
  - destruct (decide (i < n)) as [Hi|Hi].
    + destruct (align_run_at _ _ _ _ _ _ _ Hrun Hi Ht) as (t' & Ht' & Hat).
      unfold active. rewrite Ht, Ht'.
      exact (align_at_searches _ _ _ _ _ Hat).
    + destruct (align_run_elsewhere _ _ _ _ _ i Hrun) as [Hl Hc];
        [left; lia|].
      unfold active. rewrite Hl, Hc. unfold count_calls; simpl.
      repeat split; auto.
  - destruct (align_run_elsewhere _ _ _ _ _ i Hrun) as [Hl Hc]; [auto|].
    unfold active. rewrite Hl, Hc. unfold count_calls; simpl.
    repeat split; auto.
Qed.

Lemma active_grow b ts i : active (grow b ts) i = active ts i.
Proof.
  unfold active, grow. rewrite list_lookup_imap.
  destruct (ts !! i); reflexivity.
Qed.

Lemma align_until_finished_searches n maxEdit maxReturn i retries :
  forall ts,
    emits (align_until_finished cfg n maxEdit maxReturn retries ts)
          (fun _ l =>
             count_calls (is_phase1_of i) l
               <= count_calls (is_overflow3_of i) l
                  + (if active ts i then 1 else 0) /\
             count_calls (is_phase1_of i) l <= S (length retries)).
Proof.
  induction retries as [|b retries IH]; intros ts; simpl;
    (eapply emits_bind; [apply align_emits|]);
    intros [ts1 fin1] l1 Hrun; simpl in *;
    destruct (align_run_searches _ _ _ _ _ i Hrun) as (Ha & Hb & Hc & Hd).
  - assert (Hgoal :
      count_calls (is_phase1_of i) l1
        <= count_calls (is_overflow3_of i) l1
           + (if active ts i then 1 else 0) /\
      count_calls (is_phase1_of i) l1 <= 1).
    { destruct (active ts i); [lia|]. rewrite Hb by reflexivity. lia. }
    destruct fin1; apply emits_ret; rewrite app_nil_r; exact Hgoal.
  - destruct fin1.
    + apply emits_ret. rewrite app_nil_r.
      destruct (active ts i); [lia|]. rewrite Hb by reflexivity. lia.
    + eapply emits_weaken; [apply IH|].
      intros _ l2 [He Hf]. rewrite active_grow in He.
      rewrite !count_calls_app. split; [|lia].
      destruct (active ts1 i) eqn:H1.
      * rewrite Hd by reflexivity. specialize (Hc eq_refl). lia.
      * destruct (active ts i); [lia|]. rewrite Hb by reflexivity. lia.
Qed.


(** ** Stage 1 *)

Lemma sweep_calls_all (Q : Call -> Prop) R idxs ts fin ts' fin' l :
  (forall i t f t' f' l, R i t f t' f' l -> Forall Q l) ->
  Sweep R idxs ts fin ts' fin' l -> Forall Q l.
Proof.
  intros HR. induction 1; auto. apply Forall_app. eauto.
Qed.

Lemma first_stage_step_no_target i t f t' f' l :
  first_stage_step cfg i t f t' f' l ->
  Forall (fun c => is_to_target c = false) l.
Proof.
  intros H. destruct H; repeat constructor.
Qed.

(** A sweep of the first loop over pairs that are done or too short leaves
    [barcodeFinished] as it was. *)
Lemma sweep_first_stage_keeps idxs ts fin ts' fin' l :
  Sweep (first_stage_step cfg) idxs ts fin ts' fin' l ->
  NoDup idxs ->
  (forall i t, In i idxs -> ts !! i = Some t -> pairNotDone t = true ->
               both_too_short cfg t = true) ->
  fin' = fin.
Proof.
  induction 1 as [| j rest ts fin t t' fin1 l1 ts' fin' l2 Hj Hstep _ IH
                  | j rest ts fin ts' fin' l Hj _ IH]; intros Hnd Hall.
  - reflexivity.
  - apply NoDup_cons in Hnd as [Hnotin Hnd].
    assert (Hfin1 : fin1 = fin).
    { destruct Hstep as [Hp | Hp Hs | Hp Hs Hl | s Hp Hs Hl | s m c Hp Hs Hl];
        try reflexivity;
        rewrite (Hall j t) in Hs by (simpl; auto); discriminate. }
    rewrite IH, Hfin1; auto.
    intros i t0 Hin Hi. apply (Hall i t0); [right; exact Hin|].
    rewrite list_lookup_insert_ne in Hi; [exact Hi|].
    intros ->. apply Hnotin, list_elem_of_In, Hin.
  - apply NoDup_cons in Hnd as [_ Hnd]. apply IH; auto.
    intros i t0 Hin. apply Hall. right. exact Hin.
Qed.

(** C9, as the code has it: [align_first_stage] answers that the barcode is
    finished exactly when every pair that entered the sweep in the paired
    stage had both reads shorter than the minimum length; then no pair is
    left in the paired stage.  (It answers "not finished" for a pair it
    searched, also when the search took the pair out of the paired stage.) *)
Theorem first_stage_finished_iff_all_too_short n ts e :
  let r := align_first_stage cfg n ts e in
  (snd (fst r) = true <->
   forall i t, i < n -> ts !! i = Some t -> pairNotDone t = true ->
               both_too_short cfg t = true) /\
  (snd (fst r) = true -> forall i, i < n -> active (fst (fst r)) i = false).
Proof.
  destruct (align_first_stage_emits n ts e) as (l & _ & Hrun).
  simpl. destruct (align_first_stage cfg n ts e) as [[ts' fin] e'];
    simpl in *.
  assert (Hdone : fin = true -> forall i t, i < n -> ts !! i = Some t ->
            exists t1, ts' !! i = Some t1 /\ pairNotDone t1 = false /\
              (pairNotDone t = true -> both_too_short cfg t = true)).
  { intros Hfin i t Hi Ht.
    destruct (first_stage_run_at _ _ _ _ _ i t Hrun Hi Ht)
      as (f & t1 & f1 & l1 & Hstep & Ht1 & Hf1 & _).
    specialize (Hf1 Hfin). exists t1. split; [exact Ht1|].
    destruct Hstep; try discriminate; simpl; split; auto; congruence. }
  split; [split|].
  - intros Hfin i t Hi Ht. destruct (Hdone Hfin i t Hi Ht) as (_ & _ & _ & H).
    exact H.
  - intros Hall. destruct Hrun as [ts1 fin1 l1 ts2 fin2 l2 H1 H2].
    apply sweep_to_target in H2 as (_ & -> & _).
    apply (sweep_first_stage_keeps _ _ _ _ _ _ H1 (seq_NoDup 0 n)).
    intros i t Hin. apply Hall. apply in_seq in Hin. lia.
  - intros Hfin i Hi. unfold active.
    destruct (ts !! i) as [t|] eqn:Ht.
    + destruct (Hdone Hfin i t Hi Ht) as (t1 & -> & Hp & _). exact Hp.
    + destruct (first_stage_run_elsewhere _ _ _ _ _ i Hrun) as [Hl _];
        [auto|]. rewrite Hl, Ht. reflexivity.
Qed.


(** ** Stage 2 *)

Lemma wrap64_small z : (- 2 ^ 63 <= z < 2 ^ 63)%Z -> wrap64 z = z.
Proof.
  intros Hz. unfold wrap64. rewrite Z.mod_small; lia.
Qed.

Lemma In_calls_of c l : In c l -> In c (calls_of (call_pair c) l).
Proof.
  intros Hc. apply list_elem_of_In, list_elem_of_filter.
  split; [reflexivity|]. apply list_elem_of_In, Hc.
Qed.

(** What stage 2 does to the pair [i] of a barcode. *)
Lemma second_stage_at n maxEdit maxReturn ts e i t :
  i < n -> ts !! i = Some t ->
  let r := align_second_stage cfg n maxEdit maxReturn ts e in
  exists l f t' f',
    calls (snd r) = calls e ++ l /\
    second_stage_step cfg i t f t' f' (calls_of i l) /\
    fst (fst r) !! i = Some t' /\
    (snd (fst r) = true -> f' = true).
Proof.
  intros Hi Ht. simpl.
  destruct (align_second_stage_emits n maxEdit maxReturn ts e)
    as (l & Hl & HS).
  assert (Hin : In i (seq 0 n)) by (apply in_seq; lia).
  destruct (sweep_at _ _ _ _ _ _ _ i t second_stage_local
              second_stage_falling (seq_NoDup 0 n) HS Hin Ht)
    as (f & t' & f' & Hstep & Ht' & Hf & _).
  exists l, f, t', f'. auto.
Qed.

Lemma second_stage_elsewhere n maxEdit maxReturn ts e i :
  n <= i \/ ts !! i = None ->
  let r := align_second_stage cfg n maxEdit maxReturn ts e in
  exists l,
    calls (snd r) = calls e ++ l /\ calls_of i l = [] /\
    fst (fst r) !! i = ts !! i.
Proof.
  intros Hi. simpl.
  destruct (align_second_stage_emits n maxEdit maxReturn ts e)
    as (l & Hl & HS).
  destruct (sweep_elsewhere _ _ _ _ _ _ _ i second_stage_local HS)
    as [Ha Hb].
  { destruct Hi; [left; rewrite in_seq; lia|auto]. }
  exists l. auto.
Qed.

(** C5: when the scoring engine answers that the secondary pairs of pair
    [i] do not fit in the paired secondary buffer, stage 2 records the
    capacity plus one in [nSecondaryResults], leaves both flags of the pair
    as they were, with [pairNotDone] set, and answers that the barcode is
    not finished.  The capacity is that of a buffer: not negative, and one
    more is an [_int64]. *)
Theorem paired_overflow_records_capacity_plus_one
    n maxEdit maxReturn ts e i t capacity l :
  ts !! i = Some t ->
  (0 <= secondaryResultBufferSize t < 2 ^ 63 - 1)%Z ->
  calls (snd (align_second_stage cfg n maxEdit maxReturn ts e))
    = calls e ++ l ->
  In (CallPhase3 i capacity true) l ->
  exists t',
    fst (fst (align_second_stage cfg n maxEdit maxReturn ts e)) !! i
      = Some t' /\
    capacity = secondaryResultBufferSize t /\
    nSecondaryResults t' = (secondaryResultBufferSize t + 1)%Z /\
    pairNotDone t' = true /\ pairNotDone t = true /\
    singleNotDone t' = singleNotDone t /\
    snd (fst (align_second_stage cfg n maxEdit maxReturn ts e)) = false.
Proof.
  intros Ht Hcap Hl Hin.
  apply In_calls_of in Hin. simpl in Hin.
  destruct (decide (i < n)) as [Hi|Hi].
  - destruct (second_stage_at n maxEdit maxReturn ts e i t Hi Ht)
      as (l0 & f & t' & f' & Hl0 & Hstep & Ht' & Hf).
    rewrite Hl in Hl0. apply app_inv_head in Hl0. subst l0.
    exists t'. split; [exact Ht'|].
    remember (calls_of i l) as li eqn:Hli. clear Hli.
    destruct Hstep as [Hp | o3 Hp Ho | o3 o4 Hp Ho].
    + destruct Hin.
    + destruct Hin as [Heq|[]].
      injection Heq as <-. simpl.
      rewrite wrap64_small by lia.
      repeat split; auto.
      destruct (snd (fst (align_second_stage cfg n maxEdit maxReturn ts e)));
        [discriminate (Hf eq_refl)|reflexivity].
    + destruct Hin as [Heq|[Heq|[]]]; discriminate.
  - destruct (second_stage_elsewhere n maxEdit maxReturn ts e i)
      as (l0 & Hl0 & Hc & _); [left; lia|].
    rewrite Hl in Hl0. apply app_inv_head in Hl0. subst l0.
    rewrite Hc in Hin. destruct Hin.
Qed.


(** ** Stage 3 *)

(** What stage 3 does to the pair [i] of a barcode. *)
Lemma third_stage_at n maxEdit maxReturn ts e i t :
  i < n -> ts !! i = Some t ->
  let r := align_third_stage cfg n maxEdit maxReturn ts e in
  exists l f t' f',
    calls (snd r) = calls e ++ l /\
    third_stage_step cfg i t f t' f' (calls_of i l) /\
    fst (fst r) !! i = Some t' /\
    (snd (fst r) = true -> f' = true).
Proof.
  intros Hi Ht. simpl.
  destruct (align_third_stage_emits n maxEdit maxReturn ts e)
    as (l & Hl & HS).
  assert (Hin : In i (seq 0 n)) by (apply in_seq; lia).
  destruct (sweep_at _ _ _ _ _ _ _ i t third_stage_local
              third_stage_falling (seq_NoDup 0 n) HS Hin Ht)
    as (f & t' & f' & Hstep & Ht' & Hf & _).
  exists l, f, t', f'. auto.
Qed.

(** The loop over the two reads, when it ends with an overflow. *)
Lemma reads_overflow_kept i t f t' f' l :
  third_stage_reads_step cfg i (seq 0 NUM_READS_PER_PAIR) t f t' f' false l ->
  kept_by_single_overflow t t' /\
  nSecondaryResults t' = 0%Z /\
  nSingleEndSecondaryResultsForFirstRead t'
    = wrap64 (singleSecondaryBufferSize t + 1) /\
  nSingleEndSecondaryResultsForSecondRead t' = 0%Z /\
  f' = false.
Proof.
  intros H. simpl in H. unfold kept_by_single_overflow.
  inversion H as [| r rest t0 f0 t1 f1 no l0 Hlen H0
                  | r rest t0 f0 o Hlen Hfit
                  | r rest t0 f0 o t1 f1 no l0 Hlen Hfit H0]; subst.
  - inversion H0 as [| r rest t0 f0 t2 f2 no l1 Hlen1 H1
                     | r rest t0 f0 o Hlen1 Hfit1
                     | r rest t0 f0 o t2 f2 no l1 Hlen1 Hfit1 H1]; subst.
    + inversion H1.
    + simpl. repeat split; reflexivity.
    + inversion H1.
  - simpl. repeat split; reflexivity.
  - inversion H0 as [| r rest t0 f0 t2 f2 no l1 Hlen1 H1
                     | r rest t0 f0 o1 Hlen1 Hfit1
                     | r rest t0 f0 o1 t2 f2 no l1 Hlen1 Hfit1 H1]; subst.
    + inversion H1.
    + simpl. repeat split; reflexivity.
    + inversion H1.
Qed.

(** C2, as the code has it.  A pair that an overflow of the paired buffer
    leaves in the paired stage keeps its flags, its reads, its primary
    result, its capacities and its cursor; its counts are the capacity plus
    one and two zeros.  A pair that an overflow of the single-end buffer
    leaves in the fallback keeps its flags, its reads, its paired secondary
    buffer, its capacities, its cursor and, in the primary result, the flags
    of the pair and the fields of the second read; its paired count
    [nSecondaryResults] is not kept but reset to 0, and the count of the
    first read is the single-end capacity plus one.  Both overflows make the
    stage answer that the barcode is not finished. *)
Theorem overflow_keeps_all_but_counts n maxEdit maxReturn ts e i t :
  i < n -> ts !! i = Some t ->
  (forall t',
     pairNotDone t = true ->
     fst (fst (align_second_stage cfg n maxEdit maxReturn ts e)) !! i
       = Some t' ->
     pairNotDone t' = true ->
     kept_by_paired_overflow t t' /\
     nSecondaryResults t' = wrap64 (secondaryResultBufferSize t + 1) /\
     nSingleEndSecondaryResultsForFirstRead t' = 0%Z /\
     nSingleEndSecondaryResultsForSecondRead t' = 0%Z /\
     snd (fst (align_second_stage cfg n maxEdit maxReturn ts e)) = false) /\
  (forall t',
     singleNotDone t = true ->
     fst (fst (align_third_stage cfg n maxEdit maxReturn ts e)) !! i
       = Some t' ->
     singleNotDone t' = true ->
     kept_by_single_overflow t t' /\
     nSecondaryResults t' = 0%Z /\
     nSingleEndSecondaryResultsForFirstRead t'
       = wrap64 (singleSecondaryBufferSize t + 1) /\
     nSingleEndSecondaryResultsForSecondRead t' = 0%Z /\
     snd (fst (align_third_stage cfg n maxEdit maxReturn ts e)) = false).
Proof.
  intros Hi Ht. split; intros t' Hflag Ht' Hflag'.
  - destruct (second_stage_at n maxEdit maxReturn ts e i t Hi Ht)
      as (l & f & t1 & f' & _ & Hstep & Ht1 & Hf).
    rewrite Ht' in Ht1. injection Ht1 as <-.
    remember (calls_of i l) as li eqn:Hli. clear Hli.
    destruct Hstep as [Hp | o3 Hp Ho | o3 o4 Hp Ho].
    + congruence.
    + unfold kept_by_paired_overflow. simpl. repeat split.
      destruct (snd (fst (align_second_stage cfg n maxEdit maxReturn ts e)));
        [discriminate (Hf eq_refl)|reflexivity].
    + rewrite paired_scored_pairNotDone in Hflag'. discriminate.
  - destruct (third_stage_at n maxEdit maxReturn ts e i t Hi Ht)
      as (l & f & t1 & f' & _ & Hstep & Ht1 & Hf).
    rewrite Ht' in Ht1. injection Ht1 as <-.
    remember (calls_of i l) as li eqn:Hli. clear Hli.
    destruct Hstep as [Hs | t1 fin1 l1 Hs Hr | t1 fin1 l1 Hs Hr].
    + congruence.
    + simpl in Hflag'. discriminate.
    + destruct (reads_overflow_kept _ _ _ _ _ _ Hr)
        as (Hk & Hn & Hn1 & Hn2 & ->).
      split; [exact Hk|]. repeat split; auto.
      destruct (snd (fst (align_third_stage cfg n maxEdit maxReturn ts e)));
        [discriminate (Hf eq_refl)|reflexivity].
Qed.

(** ** The flags over the invocations *)

Lemma only_clears_refl t : only_clears t t.
Proof. split; auto. Qed.

Lemma only_clears_trans t1 t2 t3 :
  only_clears t1 t2 -> only_clears t2 t3 -> only_clears t1 t3.
Proof. intros [H1 H2] [H3 H4]. split; auto. Qed.

Lemma third_stage_step_only_clears i t f t' f' l :
  third_stage_step cfg i t f t' f' l -> only_clears t t'.
Proof.
  intros H. apply third_stage_step_flags in H as [Hp Hs].
  split; [congruence|exact Hs].
Qed.

Lemma align_at_only_clears i t t' fin l :
  align_at cfg i t t' fin l -> only_clears t t'.
Proof.
  intros H.
  destruct H as [f t1 l1 H1 | f t1 f1 l1 f2 t2 f2' l2 H1 H2
                 | f t1 f1 l1 f2 t2 l2 f3 t3 f3' l3 fin H1 H2 H3 Hfin];
    apply first_stage_step_flags in H1; auto;
    apply second_stage_step_flags in H2;
    try apply third_stage_step_only_clears in H3;
    eauto using only_clears_trans.
Qed.

Lemma first_stage_only_clears n : flags_only_clear (align_first_stage cfg n).
Proof.
  intros ts e i t t' Ht Ht'.
  destruct (align_first_stage_emits n ts e) as (l & _ & Hrun).
  destruct (decide (i < n)) as [Hi|Hi].
  - destruct (first_stage_run_at _ _ _ _ _ i t Hrun Hi Ht)
      as (f & t1 & f1 & l1 & Hstep & Ht1 & _).
    rewrite Ht' in Ht1. injection Ht1 as <-.
    apply first_stage_step_flags in Hstep. exact Hstep.
  - destruct (first_stage_run_elsewhere _ _ _ _ _ i Hrun) as [Hl _];
      [left; lia|].
    rewrite Hl, Ht in Ht'. injection Ht' as <-. apply only_clears_refl.
Qed.

Lemma second_stage_only_clears n maxEdit maxReturn :
  flags_only_clear (align_second_stage cfg n maxEdit maxReturn).
Proof.
  intros ts e i t t' Ht Ht'.
  destruct (decide (i < n)) as [Hi|Hi].
  - destruct (second_stage_at n maxEdit maxReturn ts e i t Hi Ht)
      as (l & f & t1 & f' & _ & Hstep & Ht1 & _).
    rewrite Ht' in Ht1. injection Ht1 as <-.
    apply second_stage_step_flags in Hstep. exact Hstep.
  - destruct (second_stage_elsewhere n maxEdit maxReturn ts e i)
      as (l & _ & _ & Hl); [left; lia|].
    rewrite Hl, Ht in Ht'. injection Ht' as <-. apply only_clears_refl.
Qed.

Lemma third_stage_only_clears n maxEdit maxReturn :
  flags_only_clear (align_third_stage cfg n maxEdit maxReturn).
Proof.
  intros ts e i t t' Ht Ht'.
  destruct (align_third_stage_emits n maxEdit maxReturn ts e)
    as (l & _ & HS).
  destruct (decide (i < n)) as [Hi|Hi].
  - destruct (third_stage_at n maxEdit maxReturn ts e i t Hi Ht)
      as (l0 & f & t1 & f' & _ & Hstep & Ht1 & _).
    rewrite Ht' in Ht1. injection Ht1 as <-.
    eapply third_stage_step_only_clears; eauto.
  - destruct (sweep_elsewhere _ _ _ _ _ _ _ i third_stage_local HS)
      as [Hl _]; [left; rewrite in_seq; lia|].
    rewrite Hl, Ht in Ht'. injection Ht' as <-. apply only_clears_refl.
Qed.

Lemma align_only_clears n maxEdit maxReturn :
  flags_only_clear (align cfg n maxEdit maxReturn).
Proof.
  intros ts e i t t' Ht Ht'.
  destruct (align_emits n maxEdit maxReturn ts e) as (l & _ & Hrun).
  destruct (decide (i < n)) as [Hi|Hi].
  - destruct (align_run_at _ _ _ _ _ i t Hrun Hi Ht) as (t1 & Ht1 & Hat).
    rewrite Ht' in Ht1. injection Ht1 as <-.
    eapply align_at_only_clears; eauto.
  - destruct (align_run_elsewhere _ _ _ _ _ i Hrun) as [Hl _]; [left; lia|].
    rewrite Hl, Ht in Ht'. injection Ht' as <-. apply only_clears_refl.
Qed.

Lemma align_lookup_Some n maxEdit maxReturn ts e i t :
  ts !! i = Some t ->
  exists t', fst (fst (align cfg n maxEdit maxReturn ts e)) !! i = Some t'.
Proof.
  intros Ht.
  destruct (align_emits n maxEdit maxReturn ts e) as (l & _ & Hrun).
  destruct (decide (i < n)) as [Hi|Hi].
  - destruct (align_run_at _ _ _ _ _ i t Hrun Hi Ht) as (t1 & Ht1 & _).
    eauto.
  - destruct (align_run_elsewhere _ _ _ _ _ i Hrun) as [Hl _]; [left; lia|].
    rewrite Hl. eauto.
Qed.

Lemma align_until_finished_only_clears n maxEdit maxReturn retries :
  flags_only_clear (align_until_finished cfg n maxEdit maxReturn retries).
Proof.
  induction retries as [|b retries IH]; intros ts e i t t' Ht; simpl;
    unfold bind;
    pose proof (align_only_clears n maxEdit maxReturn ts e i t) as Hone;
    destruct (align_lookup_Some n maxEdit maxReturn ts e i t Ht)
      as (t1 & Ht1);
    destruct (align cfg n maxEdit maxReturn ts e) as [[ts1 fin1] e1];
    simpl in *.
  - destruct fin1; simpl; intros Ht'; apply Hone; auto.
  - destruct fin1; simpl; [intros Ht'; apply Hone; auto|].
    intros Ht'.
    apply only_clears_trans with t1; [apply Hone; auto|].
    assert (Hg : grow b ts1 !! i
                 = Some (set_singleSecondaryBufferSize
                           (new_singleSecondaryBufferSize (b i))
                           (set_secondaryResultBufferSize
                              (new_secondaryResultBufferSize (b i)) t1))).
    { unfold grow. rewrite list_lookup_imap, Ht1. reflexivity. }
    exact (IH _ _ _ _ _ Hg Ht').
Qed.


(** ** The entry point *)

Lemma first_stage_run_calls n ts ts' fin l :
  first_stage_run cfg n ts ts' fin l ->
  Forall (fun c => is_scoring c = false /\ is_single_end c = false) l.
Proof.
  intros [ts1 fin1 l1 ts2 fin2 l2 H1 H2]. apply Forall_app. split.
  - eapply sweep_calls_all; [|exact H1].
    intros i t f t' f' l0 H. destruct H; repeat constructor.
  - eapply sweep_calls_all; [|exact H2].
    intros i t f t' f' l0 (_ & _ & ->).
    destruct (pairNotDone t); repeat constructor.
Qed.

Lemma second_stage_sweep_calls idxs ts fin ts' fin' l :
  Sweep (second_stage_step cfg) idxs ts fin ts' fin' l ->
  Forall (fun c => is_single_end c = false) l.
Proof.
  apply sweep_calls_all.
  intros i t f t' f' l0 H. destruct H; repeat constructor.
Qed.

(** C6: [align] runs stage 1 and, if stage 1 answers that the barcode is
    finished, returns true with the trackers of stage 1, no scoring and no
    single-end alignment having been called; otherwise it runs stage 2 and,
    if stage 2 answers that the barcode is not finished, returns false with
    the trackers of stage 2, no single-end alignment having been called;
    otherwise it runs stage 3 and returns what stage 3 answers. *)
Theorem align_returns_at_first_unfinished_stage n maxEdit maxReturn ts e :
  let r1 := align_first_stage cfg n ts e in
  let r2 := align_second_stage cfg n maxEdit maxReturn
              (fst (fst r1)) (snd r1) in
  let r3 := align_third_stage cfg n maxEdit maxReturn
              (fst (fst r2)) (snd r2) in
  let r := align cfg n maxEdit maxReturn ts e in
  exists l,
    calls (snd r) = calls e ++ l /\
    if snd (fst r1) then
      r = (fst (fst r1), true, snd r1) /\
      count_calls is_scoring l = 0 /\ count_calls is_single_end l = 0
    else if snd (fst r2) then r = r3
    else
      r = (fst (fst r2), false, snd r2) /\ count_calls is_single_end l = 0.
Proof.
  simpl.
  destruct (align_emits n maxEdit maxReturn ts e) as (l & Hl & _).
  exists l. split; [exact Hl|].
  destruct (align_first_stage_emits n ts e) as (l1 & Hl1 & Hrun1).
  revert Hl. unfold align, bind.
  destruct (align_first_stage cfg n ts e) as [[ts1 fin1] e1]; simpl in *.
  apply first_stage_run_calls in Hrun1.
  destruct fin1; simpl.
  - intros Hl. rewrite Hl1 in Hl. apply app_inv_head in Hl. subst l.
    split; [reflexivity|].
    split; apply count_calls_none; eapply Forall_impl; try exact Hrun1;
      simpl; tauto.
  - destruct (align_second_stage_emits n maxEdit maxReturn ts1 e1)
      as (l2 & Hl2 & Hrun2).
    destruct (align_second_stage cfg n maxEdit maxReturn ts1 e1)
      as [[ts2 fin2] e2]; simpl in *.
    apply second_stage_sweep_calls in Hrun2.
    destruct fin2; simpl.
    + intros _.
      destruct (align_third_stage cfg n maxEdit maxReturn ts2 e2)
        as [[ts3 [|]] e3]; reflexivity.
    + intros Hl. rewrite Hl2, Hl1, <- app_assoc in Hl.
      apply app_inv_head in Hl. subst l.
      split; [reflexivity|].
      rewrite count_calls_app.
      rewrite (count_calls_none is_single_end l1)
        by (eapply Forall_impl; try exact Hrun1; simpl; tauto).
      rewrite (count_calls_none is_single_end l2) by exact Hrun2.
      reflexivity.
Qed.

(** ** Pairs of two reads that are too short *)

Lemma first_stage_finished_if_all_too_short n ts e :
  (forall i t, i < n -> ts !! i = Some t -> pairNotDone t = true ->
               both_too_short cfg t = true) ->
  snd (fst (align_first_stage cfg n ts e)) = true.
Proof.
  intros Hall.
  destruct (align_first_stage_emits n ts e) as (l & _ & Hrun).
  destruct Hrun as [ts1 fin1 l1 ts2 fin2 l2 H1 H2].
  apply sweep_to_target in H2 as (_ & -> & _).
  apply (sweep_first_stage_keeps _ _ _ _ _ _ H1 (seq_NoDup 0 n)).
  intros i t Hin. apply Hall. apply in_seq in Hin. lia.
Qed.

Lemma align_at_too_short i t t' fin l :
  align_at cfg i t t' fin l ->
  pairNotDone t = true -> both_too_short cfg t = true ->
  t' = pair_too_short (status_not_found t) /\ l = [].
Proof.
  intros H Hp Hs.
  assert (Hfirst : forall f t1 f1 l1,
            first_stage_step cfg i t f t1 f1 l1 ->
            t1 = pair_too_short (status_not_found t) /\ l1 = []).
  { intros f t1 f1 l1 H1. destruct H1; auto; congruence. }
  assert (Hsecond : forall f t2 f2 l2,
            second_stage_step cfg i (pair_too_short (status_not_found t))
                              f t2 f2 l2 ->
            t2 = pair_too_short (status_not_found t) /\ l2 = []).
  { intros f t2 f2 l2 H2. inversion H2; subst; auto; discriminate. }
  assert (Hthird : forall f t3 f3 l3,
            third_stage_step cfg i (pair_too_short (status_not_found t))
                             f t3 f3 l3 ->
            t3 = pair_too_short (status_not_found t) /\ l3 = []).
  { intros f t3 f3 l3 H3. inversion H3; subst; auto; discriminate. }
  destruct H as [f t1 l1 H1 | f t1 f1 l1 f2 t2 f2' l2 H1 H2
                 | f t1 f1 l1 f2 t2 l2 f3 t3 f3' l3 fin H1 H2 H3 Hfin];
    apply Hfirst in H1 as [-> ->].
  - auto.
  - apply Hsecond in H2 as [-> ->]. auto.
  - apply Hsecond in H2 as [-> ->]. apply Hthird in H3 as [-> ->]. auto.
Qed.

(** C7: a pair that enters [align] in the paired stage with both reads
    shorter than the minimum length leaves it with both mates not found,
    not aligned as a pair, score, mapping quality and location zero for both
    mates and both flags cleared, no engine having been called for it; and
    [align] answers that a barcode of such pairs only is finished. *)
Theorem too_short_pair_finalized_without_search n maxEdit maxReturn ts e :
  let r := align cfg n maxEdit maxReturn ts e in
  (forall i t,
     i < n -> ts !! i = Some t ->
     pairNotDone t = true -> both_too_short cfg t = true ->
     exists t' l,
       fst (fst r) !! i = Some t' /\
       calls (snd r) = calls e ++ l /\ calls_of i l = [] /\
       status (result0 t') = (NotFound, NotFound) /\
       alignedAsPair (result0 t') = false /\
       score (result0 t') = (0%Z, 0%Z) /\
       mapq (result0 t') = (0%Z, 0%Z) /\
       location (result0 t') = (0%Z, 0%Z) /\
       pairNotDone t' = false /\ singleNotDone t' = false) /\
  ((forall i t,
      i < n -> ts !! i = Some t ->
      pairNotDone t = true /\ both_too_short cfg t = true) ->
   snd (fst r) = true).
Proof.
  simpl. split.
  - intros i t Hi Ht Hp Hs.
    destruct (align_emits n maxEdit maxReturn ts e) as (l & Hl & Hrun).
    destruct (align_run_at _ _ _ _ _ i t Hrun Hi Ht) as (t' & Ht' & Hat).
    destruct (align_at_too_short _ _ _ _ _ Hat Hp Hs) as [-> Hc].
    eexists. exists l. split; [exact Ht'|]. split; [exact Hl|].
    split; [exact Hc|]. repeat split; reflexivity.
  - intros Hall.
    pose proof (first_stage_finished_if_all_too_short n ts e) as Hfin.
    unfold align, bind.
    destruct (align_first_stage cfg n ts e) as [[ts1 fin1] e1]; simpl in *.
    rewrite Hfin; [reflexivity|].
    intros i t Hi Ht _. apply (Hall i t Hi Ht).
Qed.

End Properties.


(** C9 fails as stated: the search of the one pair stops after phase 1, so
    no pair is left in the paired stage, and [align_first_stage] answers
    that the barcode is not finished. *)
Lemma first_stage_unfinished_with_no_pair_searching :
  let run := align_first_stage (E := scripted stops_after_phase_1)
               (config 4 false) 1 [long_pair 2 2] start in
  ~ (snd (fst run) = true <->
     Forall (fun t => pairNotDone t = false) (fst (fst run))).
Proof.
  vm_compute. intros [_ H].
  discriminate H. repeat constructor.
Qed.

(** C5 on the scenario of the specification: a paired buffer of capacity 2
    and 5 secondary pairs; the count is 3 and the call is not finished. *)
Lemma capacity_2_with_5_candidates_records_3 :
  exists t',
    fst (fst (align_second_stage (E := scripted five_candidates)
                (config 4 false) 1 3%Z 10%Z [long_pair 2 2] start)) !! 0
      = Some t' /\
    nSecondaryResults t' = 3%Z /\
    pairNotDone t' = true /\ singleNotDone t' = true /\
    snd (fst (align_second_stage (E := scripted five_candidates)
                (config 4 false) 1 3%Z 10%Z [long_pair 2 2] start)) = false.
Proof.
  destruct (paired_overflow_records_capacity_plus_one
              (E := scripted five_candidates) (config 4 false) 1 3%Z 10%Z
              [long_pair 2 2] start 0 (long_pair 2 2) 2%Z
              [CallPhase3 0 2 true] eq_refl)
    as (t' & Ht' & _ & Hn & Hp & _ & Hs & Hfin).
  - simpl. lia.
  - reflexivity.
  - left. reflexivity.
  - exists t'. repeat split; assumption.
Defined.



(** C2 fails as stated: stage 2 has left 5 secondary paired results for a
    pair and handed it to the fallback; the single-end buffer of capacity 1
    overflows on its first read, stage 3 answers that the barcode is not
    finished, and [nSecondaryResults] is 0. *)
Lemma single_overflow_resets_paired_count :
  let before := [fallback_pair 5 8 1] in
  let run := align_third_stage (E := scripted five_candidates)
               (config 4 false) 1 3%Z 10%Z before start in
  snd (fst run) = false /\
  map singleNotDone (fst (fst run)) = [true] /\
  ~ map nSecondaryResults (fst (fst run)) = map nSecondaryResults before.
Proof.
  vm_compute. repeat split; discriminate.
Qed.

(** The amended C2 on that pair. *)
Lemma single_overflow_on_fallback_pair :
  exists t',
    fst (fst (align_third_stage (E := scripted five_candidates)
                (config 4 false) 1 3%Z 10%Z [fallback_pair 5 8 1] start))
      !! 0 = Some t' /\
    kept_by_single_overflow (fallback_pair 5 8 1) t' /\
    nSecondaryResults t' = 0%Z /\
    nSingleEndSecondaryResultsForFirstRead t' = 2%Z.
Proof.
  eexists. split; [reflexivity|].
  destruct (overflow_keeps_all_but_counts
              (E := scripted five_candidates) (config 4 false) 1 3%Z 10%Z
              [fallback_pair 5 8 1] start 0 (fallback_pair 5 8 1)
              (le_n 1) eq_refl) as [_ H].
  destruct (H _ eq_refl eq_refl eq_refl) as (Hk & Hn & Hf & _).
  split; [exact Hk|]. split; [exact Hn|]. rewrite Hf. reflexivity.
Defined.

(** C3 at the failing input: a pair in the fallback whose first read has 2
    secondary results and whose second read has 5.  Stage 3 finishes the
    pair; the second call of [AlignRead] is given the offset 2, the count of
    the first read, and then the count of the second read, 5, overwrites it
    in [nSingleEndSecondaryResultsForFirstRead], while
    [nSingleEndSecondaryResultsForSecondRead] stays 0. *)
Lemma third_stage_counts_both_reads_in_first_counter :
  let run := align_third_stage (E := scripted five_candidates)
               (config 4 false) 1 3%Z 10%Z [fallback_pair 0 8 10] start in
  snd (fst run) = true /\
  map singleNotDone (fst (fst run)) = [false] /\
  calls (snd run)
    = [CallAlignRead 0 0 10 0 true; CallAlignRead 0 1 8 2 true] /\
  map nSingleEndSecondaryResultsForFirstRead (fst (fst run)) = [5%Z] /\
  map nSingleEndSecondaryResultsForSecondRead (fst (fst run)) = [0%Z].
Proof.
  vm_compute. repeat split; reflexivity.
Qed.



(** C7 on the scenario of the specification: one pair, both reads of length
    0, minimum length 30.  The first call answers that the barcode is
    finished and calls no engine. *)
Lemma empty_reads_finished_by_first_call :
  let r := align (E := scripted five_candidates)
             (config 30 false) 1 3%Z 10%Z [short_pair] start in
  snd (fst r) = true /\
  exists t',
    fst (fst r) !! 0 = Some t' /\
    calls (snd r) = [] /\
    status (result0 t') = (NotFound, NotFound) /\
    alignedAsPair (result0 t') = false /\
    score (result0 t') = (0%Z, 0%Z) /\
    mapq (result0 t') = (0%Z, 0%Z) /\
    pairNotDone t' = false /\ singleNotDone t' = false.
Proof.
  destruct (too_short_pair_finalized_without_search
              (E := scripted five_candidates) (config 30 false) 1 3%Z 10%Z
              [short_pair] start) as [Hpair Hall].
  split.
  - apply Hall. intros [|i] t Hi Ht; [|lia].
    injection Ht as <-. split; reflexivity.
  - destruct (Hpair 0 short_pair (le_n 1) eq_refl eq_refl eq_refl)
      as (t' & l & Ht' & _ & _ & Hst & Ha & Hsc & Hm & _ & Hp & Hs).
    exists t'. repeat split; first [assumption | reflexivity].
Defined.

(** * More properties of the stages *)

Section Stages.
Context `{E : Engines} (cfg : Config).

(** ** A barcode with no pair in the paired stage *)

Lemma for_each_pair_skips
    (body : nat -> TenXProgressTracker -> bool ->
            M (TenXProgressTracker * bool)) idxs :
  forall ts fin e,
    (forall i t, In i idxs -> ts !! i = Some t ->
                 body i t fin e = (t, fin, e)) ->
    for_each_pair body idxs ts fin e = (ts, fin, e).
Proof.
  induction idxs as [|i rest IH]; intros ts fin e Hskip; simpl;
    [reflexivity|].
  destruct (ts !! i) as [t|] eqn:Hi.
  - unfold bind. rewrite (Hskip i t) by (simpl; auto). simpl.
    rewrite list_insert_id by exact Hi.
    apply IH. intros j t0 Hj. apply Hskip. right. exact Hj.
  - apply IH. intros j t0 Hj. apply Hskip. right. exact Hj.
Qed.

(** X1: when no pair of the barcode has [pairNotDone], [align] answers that
    the barcode is finished and does nothing else: the trackers and the
    engines are as they were and no engine is called, whatever
    [singleNotDone] says.  A pair that an overflow of the single-end buffer
    left in the fallback is not taken up again by such an invocation. *)
Theorem align_without_paired_stage_does_nothing n maxEdit maxReturn ts e :
  (forall i t, i < n -> ts !! i = Some t -> pairNotDone t = false) ->
  align cfg n maxEdit maxReturn ts e = (ts, true, e).
Proof.
  intros Hdone. unfold align, bind, align_first_stage, bind.
  rewrite for_each_pair_skips; simpl.
  - rewrite for_each_pair_skips; simpl; [reflexivity|].
    intros i t Hin Hi. apply in_seq in Hin.
    unfold to_target_pair. rewrite (Hdone i t) by (auto; lia). reflexivity.
  - intros i t Hin Hi. apply in_seq in Hin.
    unfold first_stage_pair. rewrite (Hdone i t) by (auto; lia). reflexivity.
Qed.

(** ** What a stage touches *)

Lemma align_run_length n ts ts' fin l :
  align_run cfg n ts ts' fin l -> length ts' = length ts.
Proof.
  assert (Hfirst : forall ts0 ts1 f l0,
            first_stage_run cfg n ts0 ts1 f l0 -> length ts1 = length ts0).
  { intros ts0 ts1 f l0 [ta fa la tb fb lb H1 H2].
    apply sweep_length in H1, H2. congruence. }
  intros Hrun.
  destruct Hrun as [ts1 l1 H1 | ts1 l1 ts2 l2 H1 H2
                    | ts1 l1 ts2 l2 ts3 fin3 l3 H1 H2 H3];
    apply Hfirst in H1; auto;
    apply sweep_length in H2; try apply sweep_length in H3; congruence.
Qed.

(** X2: [align] keeps the number of trackers, leaves every tracker from
    index [barcodeSize] on as it was, and calls no engine for a pair from
    that index on or for a pair that is not there. *)
Theorem align_stays_within_barcode n maxEdit maxReturn ts e :
  let r := align cfg n maxEdit maxReturn ts e in
  exists l,
    calls (snd r) = calls e ++ l /\
    length (fst (fst r)) = length ts /\
    drop n (fst (fst r)) = drop n ts /\
    Forall (fun c => call_pair c < n /\ call_pair c < length ts) l.
Proof.
  simpl.
  destruct (align_emits cfg n maxEdit maxReturn ts e) as (l & Hl & Hrun).
  exists l. split; [exact Hl|].
  pose proof (align_run_length _ _ _ _ _ Hrun) as Hlen.
  split; [exact Hlen|]. split.
  - apply list_eq. intros j. rewrite !lookup_drop.
    destruct (align_run_elsewhere cfg _ _ _ _ _ (n + j) Hrun) as [H _];
      [left; lia|exact H].
  - apply Forall_forall. intros c Hc.
    destruct (decide (call_pair c < n /\ call_pair c < length ts))
      as [Hin|Hout]; [exact Hin|exfalso].
    destruct (align_run_elsewhere cfg _ _ _ _ _ (call_pair c) Hrun)
      as [_ Hnone].
    { destruct (decide (n <= call_pair c)); [left; assumption|].
      right. apply lookup_ge_None. lia. }
    apply list_elem_of_In, In_calls_of in Hc. rewrite Hnone in Hc.
    destruct Hc.
Qed.

(** ** The calls of stage 1 *)

Lemma too_short_not_long t :
  both_too_short cfg t = true -> both_long_enough cfg t = false.
Proof.
  unfold both_too_short, both_long_enough. intros H.
  apply andb_true_iff in H as [H _]. apply N.ltb_lt in H.
  apply andb_false_iff. left. apply N.leb_gt. exact H.
Qed.


(** ** The calls of stage 2 *)


(** ** When a stage answers that the barcode is finished *)

Section Unfinished.
Variable R : nat -> TenXProgressTracker -> bool ->
             TenXProgressTracker -> bool -> list Call -> Prop.
Variable flag : TenXProgressTracker -> bool.
Hypothesis R_local : local R.
Hypothesis R_falling : falling R.
Hypothesis R_unfinished :
  forall i t f t' f' l,
    R i t f t' f' l -> f' = false -> f = false \/ flag t' = true.
Hypothesis R_finished :
  forall i t f t' f' l, R i t f t' f' l -> f' = true -> flag t' = false.

Lemma sweep_unfinished idxs ts fin ts' fin' l :
  Sweep R idxs ts fin ts' fin' l -> NoDup idxs -> fin' = false ->
  fin = false \/
  exists i t', In i idxs /\ ts' !! i = Some t' /\ flag t' = true.
Proof using R_local R_unfinished.
  induction 1 as [| j rest ts fin t t' fin1 l1 ts' fin' l2 Hj Hstep HS IH
                  | j rest ts fin ts' fin' l Hj _ IH]; intros Hnd Hfin.
  - auto.
  - apply NoDup_cons in Hnd as [Hnotin Hnd].
    destruct (IH Hnd Hfin) as [Hf1 | (i & ti & Hin & Hi & Hflag)].
    + destruct (R_unfinished _ _ _ _ _ _ Hstep Hf1) as [Hf | Hflag];
        [auto|].
      right. exists j, t'. split; [left; reflexivity|]. split; [|exact Hflag].
      destruct (sweep_elsewhere R _ _ _ _ _ _ j R_local HS) as [Hl _].
      { left. rewrite <- list_elem_of_In. exact Hnotin. }
      rewrite Hl. apply list_lookup_insert_eq. eapply lookup_lt_Some; eauto.
    + right. exists i, ti. split; [right; exact Hin|]. auto.
  - apply NoDup_cons in Hnd as [_ Hnd].
    destruct (IH Hnd Hfin) as [Hf | (i & ti & Hin & Hi & Hflag)]; [auto|].
    right. exists i, ti. split; [right; exact Hin|]. auto.
Qed.

(** A sweep from [true] ends with [true] exactly when no pair it went over
    has the flag afterwards. *)
Lemma sweep_finished_iff n ts ts' fin' l :
  Sweep R (seq 0 n) ts true ts' fin' l ->
  fin' = true <->
  forall i t', i < n -> ts' !! i = Some t' -> flag t' = false.
Proof using R_local R_falling R_unfinished R_finished.
  intros HS. split.
  - intros Hfin i t' Hi Ht'.
    assert (Hin : In i (seq 0 n)) by (apply in_seq; lia).
    destruct (ts !! i) as [t|] eqn:Ht.
    + destruct (sweep_at R _ _ _ _ _ _ i t R_local R_falling
                  (seq_NoDup 0 n) HS Hin Ht)
        as (f & t1 & f' & Hstep & Ht1 & Hf & _).
      assert (t1 = t') by congruence. subst t1.
      eapply R_finished; eauto.
    + destruct (sweep_elsewhere R _ _ _ _ _ _ i R_local HS) as [Hl _];
        [auto|]. congruence.
  - intros Hall. destruct fin'; [reflexivity|].
    destruct (sweep_unfinished _ _ _ _ _ _ HS (seq_NoDup 0 n) eq_refl)
      as [Hf | (i & t' & Hin & Hi & Hflag)]; [discriminate|].
    apply in_seq in Hin. rewrite (Hall i t') in Hflag by (auto; lia).
    discriminate.
Qed.

End Unfinished.

Lemma reads_step_fin i rs t f t' f' no l :
  third_stage_reads_step cfg i rs t f t' f' no l ->
  f' = f && no.
Proof.
  induction 1; auto.
  - rewrite andb_true_r. reflexivity.
  - rewrite andb_false_r. reflexivity.
Qed.

(** X5: stage 2 answers that the barcode is finished exactly when no pair
    of the barcode has [pairNotDone] afterwards. *)
Theorem second_stage_finished_iff_no_pair_left n maxEdit maxReturn ts e :
  let r := align_second_stage cfg n maxEdit maxReturn ts e in
  snd (fst r) = true <->
  forall i, i < n -> active (fst (fst r)) i = false.
Proof.
  simpl.
  destruct (align_second_stage_emits cfg n maxEdit maxReturn ts e)
    as (l & _ & HS).
  assert (Hunfinished : forall i t f t' f' l0,
            second_stage_step cfg i t f t' f' l0 -> f' = false ->
            f = false \/ pairNotDone t' = true).
  { intros i t f t' f' l0 H Hf. destruct H; auto. }
  assert (Hfinished : forall i t f t' f' l0,
            second_stage_step cfg i t f t' f' l0 -> f' = true ->
            pairNotDone t' = false).
  { intros i t f t' f' l0 H Hf. destruct H; auto; try discriminate.
    apply paired_scored_pairNotDone. }
  rewrite (sweep_finished_iff (second_stage_step cfg) pairNotDone
             (second_stage_local cfg) (second_stage_falling cfg)
             Hunfinished Hfinished _ _ _ _ _ HS).
  unfold active. split.
  - intros H i Hi. destruct (_ !! i) eqn:Hl; eauto.
  - intros H i t' Hi Ht'. specialize (H i Hi). rewrite Ht' in H. exact H.
Qed.

(** X6: stage 3 answers that the barcode is finished exactly when no pair
    of the barcode has [singleNotDone] afterwards. *)
Theorem third_stage_finished_iff_no_pair_left n maxEdit maxReturn ts e :
  let r := align_third_stage cfg n maxEdit maxReturn ts e in
  snd (fst r) = true <->
  forall i, i < n -> awaiting_single (fst (fst r)) i = false.
Proof.
  simpl.
  destruct (align_third_stage_emits cfg n maxEdit maxReturn ts e)
    as (l & _ & HS).
  assert (Hunfinished : forall i t f t' f' l0,
            third_stage_step cfg i t f t' f' l0 -> f' = false ->
            f = false \/ singleNotDone t' = true).
  { intros i t f t' f' l0 H Hf.
    destruct H as [Hs | t1 fin1 l1 Hs Hr | t1 fin1 l1 Hs Hr]; auto.
    - apply reads_step_fin in Hr. rewrite andb_true_r in Hr. left.
      congruence.
    - apply third_stage_reads_step_flags in Hr as [_ Hq]. right.
      congruence. }
  assert (Hfinished : forall i t f t' f' l0,
            third_stage_step cfg i t f t' f' l0 -> f' = true ->
            singleNotDone t' = false).
  { intros i t f t' f' l0 H Hf.
    destruct H as [Hs | t1 fin1 l1 Hs Hr | t1 fin1 l1 Hs Hr]; auto.
    apply reads_step_fin in Hr. rewrite andb_false_r in Hr. congruence. }
  rewrite (sweep_finished_iff (third_stage_step cfg) singleNotDone
             (third_stage_local cfg) (third_stage_falling cfg)
             Hunfinished Hfinished _ _ _ _ _ HS).
  unfold awaiting_single. split.
  - intros H i Hi. destruct (_ !! i) eqn:Hl; eauto.
  - intros H i t' Hi Ht'. specialize (H i Hi). rewrite Ht' in H. exact H.
Qed.

(** ** Stage 2 without forced spacing *)

(** X7: without forced spacing, a pair that stage 2 takes out of the paired
    stage is marked as aligned as a pair and from the paired aligner; it
    keeps [singleNotDone] as it was when one of its mates is not found, and
    has it cleared when both are found. *)
Theorem unforced_pair_falls_back_iff_a_mate_is_missing
    n maxEdit maxReturn ts e i t t' :
  forceSpacing cfg = false ->
  i < n -> ts !! i = Some t -> pairNotDone t = true ->
  fst (fst (align_second_stage cfg n maxEdit maxReturn ts e)) !! i
    = Some t' ->
  pairNotDone t' = false ->
  alignedAsPair (result0 t') = true /\
  fromAlignTogether (result0 t') = true /\
  nanosInAlignTogether (result0 t') = 0%Z /\
  singleNotDone t'
    = singleNotDone t
      && (is_NotFound (arr2_get 0 (status (result0 t')))
          || is_NotFound (arr2_get 1 (status (result0 t')))).
Proof.
  intros Hforce Hi Ht Hp Ht' Hp'.
  destruct (second_stage_at cfg n maxEdit maxReturn ts e i t Hi Ht)
    as (l & f & t1 & f' & _ & Hstep & Ht1 & _).
  rewrite Ht' in Ht1. injection Ht1 as <-.
  remember (calls_of i l) as li eqn:Hli. clear Hli.
  destruct Hstep as [Hq | o3 Hq Ho | o3 o4 Hq Ho].
  - congruence.
  - simpl in Hp'. congruence.
  - unfold paired_scored. rewrite Hforce. simpl.
    destruct (status (p4_result o4)) as [[|] [|]] eqn:Hst; simpl;
      rewrite ?Hst; simpl; rewrite ?andb_true_r, ?andb_false_r; auto.
Qed.

(** ** Overflows and the answer of [align] *)

Section Overflows.
Variable R : nat -> TenXProgressTracker -> bool ->
             TenXProgressTracker -> bool -> list Call -> Prop.
Hypothesis R_overflow :
  forall i t f t' f' l,
    R i t f t' f' l -> f' = f && (count_calls is_overflow l =? 0).

(** A sweep ends with [true] exactly when it began with [true] and no call
    overflowed. *)
Lemma sweep_overflow idxs ts fin ts' fin' l :
  Sweep R idxs ts fin ts' fin' l ->
  fin' = fin && (count_calls is_overflow l =? 0).
Proof using R_overflow.
  induction 1 as [| j rest ts fin t t' fin1 l1 ts' fin' l2 Hj Hstep _ IH
                  | j rest ts fin ts' fin' l Hj _ IH]; auto.
  - rewrite andb_true_r. reflexivity.
  - rewrite IH, (R_overflow _ _ _ _ _ _ Hstep), count_calls_app.
    rewrite <- andb_assoc. f_equal.
    destruct (count_calls is_overflow l1), (count_calls is_overflow l2);
      reflexivity.
Qed.

End Overflows.

Lemma second_stage_step_overflow i t f t' f' l :
  second_stage_step cfg i t f t' f' l ->
  f' = f && (count_calls is_overflow l =? 0).
Proof.
  intros H. destruct H; unfold count_calls; simpl;
    rewrite ?andb_true_r, ?andb_false_r; reflexivity.
Qed.

Lemma reads_step_overflow i rs t f t' f' no l :
  third_stage_reads_step cfg i rs t f t' f' no l ->
  no = (count_calls is_overflow l =? 0).
Proof.
  induction 1; auto.
Qed.

Lemma third_stage_step_overflow i t f t' f' l :
  third_stage_step cfg i t f t' f' l ->
  f' = f && (count_calls is_overflow l =? 0).
Proof.
  intros H. destruct H as [Hs | t1 fin1 l1 Hs Hr | t1 fin1 l1 Hs Hr].
  - rewrite andb_true_r. reflexivity.
  - rewrite (reads_step_fin _ _ _ _ _ _ _ _ Hr).
    rewrite <- (reads_step_overflow _ _ _ _ _ _ _ _ Hr). reflexivity.
  - rewrite (reads_step_fin _ _ _ _ _ _ _ _ Hr).
    rewrite <- (reads_step_overflow _ _ _ _ _ _ _ _ Hr). reflexivity.
Qed.

(** X8: [align] answers that the barcode is not finished exactly when, in
    this invocation, the scoring engine answered that the paired secondary
    buffer of some pair overflowed or the single-end engine that the results
    of some read did not fit. *)
Theorem align_unfinished_iff_a_buffer_overflowed n maxEdit maxReturn ts e :
  let r := align cfg n maxEdit maxReturn ts e in
  exists l,
    calls (snd r) = calls e ++ l /\
    (snd (fst r) = false <-> count_calls is_overflow l <> 0).
Proof.
  simpl.
  destruct (align_emits cfg n maxEdit maxReturn ts e) as (l & Hl & Hrun).
  exists l. split; [exact Hl|].
  assert (Hfirst : forall ts1 f1 l1,
            first_stage_run cfg n ts ts1 f1 l1 ->
            count_calls is_overflow l1 = 0).
  { intros ts1 f1 l1 H1. apply count_calls_none.
    eapply Forall_impl; [exact (first_stage_run_calls cfg _ _ _ _ _ H1)|].
    intros [] [Ha Hb]; simpl in *; congruence. }
  destruct Hrun as [ts1 l1 H1 | ts1 l1 ts2 l2 H1 H2
                    | ts1 l1 ts2 l2 ts3 fin3 l3 H1 H2 H3];
    rewrite ?count_calls_app, (Hfirst _ _ _ H1).
  - split; [discriminate|congruence].
  - apply (sweep_overflow _ (second_stage_step_overflow)) in H2.
    simpl in *. split; [|reflexivity].
    intros _ Hz. rewrite Hz in H2. discriminate.
  - apply (sweep_overflow _ (second_stage_step_overflow)) in H2.
    apply (sweep_overflow _ (third_stage_step_overflow)) in H3.
    simpl in H2, H3. symmetry in H2. apply Nat.eqb_eq in H2. rewrite H2.
    simpl. subst fin3.
    destruct (count_calls is_overflow l3); simpl; split; congruence.
Qed.

(** ** What "finished" says about the pairs *)

Lemma reads_step_no_overflow_false i rs t f t' f' l :
  third_stage_reads_step cfg i rs t f t' f' false l -> f' = false.
Proof.
  intros H. apply reads_step_fin in H. rewrite andb_false_r in H. exact H.
Qed.

(** X9: when no pair of the barcode enters [align] in the single-end
    fallback and [align] answers that the barcode is finished, every pair of
    the barcode has both flags cleared. *)
Theorem finished_barcode_has_no_pair_left
    n maxEdit maxReturn ts e i t' :
  (forall j t, j < n -> ts !! j = Some t ->
               pairNotDone t = false -> singleNotDone t = false) ->
  snd (fst (align cfg n maxEdit maxReturn ts e)) = true ->
  i < n ->
  fst (fst (align cfg n maxEdit maxReturn ts e)) !! i = Some t' ->
  pairNotDone t' = false /\ singleNotDone t' = false.
Proof.
  intros Hentry Hfin Hi Ht'.
  destruct (align_emits cfg n maxEdit maxReturn ts e) as (l & _ & Hrun).
  destruct (ts !! i) as [t|] eqn:Ht.
  2:{ destruct (align_run_elsewhere cfg _ _ _ _ _ i Hrun) as [Hl _];
        [auto|]. congruence. }
  destruct (align_run_at cfg _ _ _ _ _ i t Hrun Hi Ht) as (t1 & Ht1 & Hat).
  assert (t1 = t') by congruence. subst t1.
  rewrite Hfin in Hat. clear Hrun Ht1 Ht'.
  remember (calls_of i l) as li eqn:Hli. clear Hli.
  remember true as fin eqn:Hfin' in Hat.
  destruct Hat as [f t1 l1 H1 | f t1 f1 l1 f2 t2 f2' l2 H1 H2
                   | f t1 f1 l1 f2 t2 l2 f3 t3 f3' l3 fin H1 H2 H3 Hf3].
  - inversion H1; subst; simpl; split; eauto.
  - discriminate.
  - specialize (Hf3 Hfin').
    assert (Hp2 : pairNotDone t2 = false).
    { inversion H2; subst; auto. apply paired_scored_pairNotDone. }
    destruct H3 as [Hs | t4 fin1 l4 Hs Hr | t4 fin1 l4 Hs Hr].
    + auto.
    + apply third_stage_reads_step_flags in Hr as [Hp _]. simpl.
      split; [congruence|reflexivity].
    + apply reads_step_no_overflow_false in Hr. congruence.
Qed.

(** ** A pair with one read too short *)


(** ** Pairs that stage 3 finishes *)


(** ** The mapping quality of a read aligned alone *)

Lemma for_each_pair_untouched
    (body : nat -> TenXProgressTracker -> bool ->
            M (TenXProgressTracker * bool)) idxs :
  forall ts fin e i,
    ~ In i idxs ->
    fst (fst (for_each_pair body idxs ts fin e)) !! i = ts !! i.
Proof.
  induction idxs as [|j rest IH]; intros ts fin e i Hi; simpl;
    [reflexivity|].
  assert (Hne : j <> i) by (intros ->; apply Hi; left; reflexivity).
  assert (Hrest : ~ In i rest) by (intros H; apply Hi; right; exact H).
  destruct (ts !! j) as [t|] eqn:Hj.
  - unfold bind. destruct (body j t fin e) as [[t' fin1] e1]; simpl.
    rewrite IH by exact Hrest. apply list_lookup_insert_ne. exact Hne.
  - apply IH. exact Hrest.
Qed.

(** What every run of the body establishes holds of every pair the sweep
    went over. *)
Lemma for_each_pair_post
    (Post : TenXProgressTracker -> TenXProgressTracker -> Prop)
    (body : nat -> TenXProgressTracker -> bool ->
            M (TenXProgressTracker * bool)) idxs :
  (forall i t fin e, Post t (fst (fst (body i t fin e)))) ->
  NoDup idxs ->
  forall ts fin e i t,
    In i idxs -> ts !! i = Some t ->
    exists t',
      fst (fst (for_each_pair body idxs ts fin e)) !! i = Some t' /\
      Post t t'.
Proof.
  intros Hbody. induction idxs as [|j rest IH];
    intros Hnd ts fin e i t Hin Hi; [destruct Hin|].
  apply NoDup_cons in Hnd as [Hnotin Hnd]. simpl.
  destruct (decide (j = i)) as [->|Hne].
  - rewrite Hi. unfold bind.
    pose proof (Hbody i t fin e) as Hpost.
    destruct (body i t fin e) as [[t' fin1] e1]; simpl in *.
    exists t'. split; [|exact Hpost].
    rewrite for_each_pair_untouched
      by (rewrite <- list_elem_of_In; exact Hnotin).
    apply list_lookup_insert_eq. eapply lookup_lt_Some; eauto.
  - destruct Hin as [Hin|Hin]; [congruence|].
    destruct (ts !! j) as [tj|] eqn:Hj.
    + unfold bind. destruct (body j tj fin e) as [[t' fin1] e1]; simpl.
      apply IH; auto. rewrite list_lookup_insert_ne by exact Hne. exact Hi.
    + apply IH; auto.
Qed.

Lemma quot3_bounds B m :
  (0 <= m <= B)%Z -> (0 <= Z.quot m 3 <= Z.quot B 3)%Z.
Proof.
  intros Hm. split.
  - apply Z.quot_pos; lia.
  - apply Z.quot_le_mono; lia.
Qed.

Lemma third_stage_pair_mapq B maxEdit maxReturn i t fin e :
  (forall w read a b c d buf,
     (0 <= s_mapq (singleResult (fst (AlignRead w read a b c d buf))) <= B)%Z) ->
  singleNotDone t = true ->
  singleNotDone (fst (fst (third_stage_pair cfg maxEdit maxReturn i t fin e)))
    = false ->
  forall r, r < NUM_READS_PER_PAIR ->
    (0 <= arr2_get r (mapq (result0 (fst (fst (third_stage_pair cfg maxEdit
                                                 maxReturn i t fin e)))))
       <= Z.quot B 3)%Z.
Proof.
  intros Hengine Hs.
  assert (HB : (0 <= Z.quot B 3)%Z).
  { pose proof (Hengine (world e) (arr2_get 0 (pairedReads t)) 0%Z 0%Z 0%Z
                        0%Z []) as H.
    apply Z.quot_pos; lia. }
  unfold third_stage_pair. rewrite Hs.
  cbn [seq NUM_READS_PER_PAIR third_stage_reads].
  unfold bind, call_AlignRead, logged, ret.
  repeat match goal with
         | |- context [AlignRead ?w ?a ?b ?c ?d ?x ?y] =>
             let H := fresh "Hq" in
             pose proof (quot3_bounds _ _ (Hengine w a b c d x y)) as H;
             destruct (AlignRead w a b c d x y) as [? ?]; simpl in H
         | |- context [if ?b then _ else _] => destruct b eqn:?
         end;
    simpl; intros Hdone [|[|r]] Hr; simpl in *; try congruence; try lia;
    unfold NUM_READS_PER_PAIR in *; lia.
Qed.


End Stages.

(** X1 after an overflow of the single-end buffer: the pair is in the
    fallback with the sentinel in its count; the next invocation, with a
    larger buffer, answers that the barcode is finished and leaves the pair
    where it was. *)
Lemma pair_left_in_fallback_by_next_call :
  let pending := grow (capacities 8 10)
                   (fst (fst (align_third_stage
                                (E := scripted five_candidates)
                                (config 4 false) 1 3%Z 10%Z
                                [fallback_pair 5 8 1] start))) in
  map singleNotDone pending = [true] /\
  align (E := scripted five_candidates) (config 4 false) 1 3%Z 10%Z
        pending start = (pending, true, start).
Proof.
  split; [reflexivity|].
  apply (align_without_paired_stage_does_nothing
           (E := scripted five_candidates)).
  intros [|i] t Hi Ht; [|lia].
  injection Ht as <-. reflexivity.
Defined.

(** * Properties of Compat.cpp *)

(** ** [memmem] *)

Lemma memchr_Some data c count :
  forall p q,
    memchr data p c count = Some q ->
    p <= q < p + count /\ data !! q = Some c /\
    forall j, p <= j < q -> data !! j <> Some c.
Proof.
  induction count as [|count IH]; intros p q; simpl; [discriminate|].
  destruct (data !! p) as [b|] eqn:Hp; [|discriminate].
  destruct (Strings.Byte.eqb b c) eqn:Hb.
  - intros [= <-]. apply Strings.Byte.byte_dec_bl in Hb. subst b.
    split; [lia|]. split; [exact Hp|]. intros j Hj. lia.
  - intros Hq. destruct (IH _ _ Hq) as (Hr & Hc & Hfirst).
    split; [lia|]. split; [exact Hc|].
    intros j Hj. destruct (decide (j = p)) as [->|Hne].
    + rewrite Hp. intros [= ->].
      rewrite Strings.Byte.byte_dec_lb in Hb by reflexivity. discriminate.
    + apply Hfirst. lia.
Qed.

Lemma memchr_None data c count :
  forall p,
    memchr data p c count = None -> p + count <= length data ->
    forall j, p <= j < p + count -> data !! j <> Some c.
Proof.
  induction count as [|count IH]; intros p; simpl; [intros; lia|].
  destruct (data !! p) as [b|] eqn:Hp.
  - destruct (Strings.Byte.eqb b c) eqn:Hb; [discriminate|].
    intros Hn Hlen j Hj. destruct (decide (j = p)) as [->|Hne].
    + rewrite Hp. intros [= ->].
      rewrite Strings.Byte.byte_dec_lb in Hb by reflexivity. discriminate.
    + apply (IH (S p)); [exact Hn|lia|lia].
  - intros _ Hlen. apply lookup_ge_None in Hp. lia.
Qed.

Lemma to_N_inj x y : Strings.Byte.to_N x = Strings.Byte.to_N y -> x = y.
Proof.
  intros H. pose proof (Strings.Byte.of_to_N x) as Hx.
  rewrite H, Strings.Byte.of_to_N in Hx. congruence.
Qed.

Lemma memcmp_zero n :
  forall a b,
    n <= length a -> n <= length b ->
    (0 =? memcmp a b n)%Z = true <-> take n a = take n b.
Proof.
  induction n as [|n IH]; intros a b Ha Hb; simpl.
  - split; reflexivity.
  - destruct a as [|x a]; [simpl in Ha; lia|].
    destruct b as [|y b]; [simpl in Hb; lia|]. simpl in *.
    destruct (Strings.Byte.eqb x y) eqn:Hxy.
    + apply Strings.Byte.byte_dec_bl in Hxy. subst y.
      rewrite IH by lia. split; [congruence|]. intros [= H]. exact H.
    + split.
      * intros H.
        assert (H0 : Strings.Byte.to_N x = Strings.Byte.to_N y).
        { destruct (Z.of_N (Strings.Byte.to_N x)
                    - Z.of_N (Strings.Byte.to_N y))%Z eqn:Hd;
            try discriminate. lia. }
        apply to_N_inj in H0. subst y.
        rewrite Strings.Byte.byte_dec_lb in Hxy by reflexivity. discriminate.
      * intros [= -> _].
        rewrite Strings.Byte.byte_dec_lb in Hxy by reflexivity. discriminate.
Qed.

Lemma occurs_at_in_bounds data pattern q :
  pattern <> [] -> occurs_at data pattern q ->
  q + length pattern <= length data.
Proof.
  unfold occurs_at. intros Hne H.
  apply (f_equal length) in H. rewrite length_take, length_drop in H.
  assert (0 < length pattern) by (destruct pattern; [congruence|simpl; lia]).
  lia.
Qed.

Lemma occurs_at_first data first rest q :
  occurs_at data (first :: rest) q -> data !! q = Some first.
Proof.
  unfold occurs_at. intros H.
  apply (f_equal (fun l => l !! 0)) in H. simpl in H.
  rewrite lookup_take_lt, lookup_drop, Nat.add_0_r in H by lia. exact H.
Qed.

(** The loop, from a state in which nothing occurs before [p]. *)
Lemma memmem_loop_spec data first rest fuel :
  let pattern := first :: rest in
  length pattern <= length data ->
  forall p count,
    count <= fuel ->
    p + count = length data - length pattern + 1 ->
    (forall j, j < p -> ~ occurs_at data pattern j) ->
    match memmem_loop fuel data pattern (length pattern) first p count with
    | Some q =>
        q + length pattern <= length data /\ occurs_at data pattern q /\
        forall j, j < q -> ~ occurs_at data pattern j
    | None => forall j, ~ occurs_at data pattern j
    end.
Proof.
  intros pattern. subst pattern.
  remember (first :: rest) as pattern eqn:Hpat. intros Hlen.
  assert (Hne : pattern <> []) by (subst pattern; discriminate).
  assert (Hpos : 0 < length pattern) by (subst pattern; simpl; lia).
  assert (Hhead : forall j, occurs_at data pattern j ->
                            data !! j = Some first).
  { intros j Hocc. rewrite Hpat in Hocc.
    eapply occurs_at_first; eauto. }
  assert (Hlate : forall j, length data - length pattern + 1 <= j ->
                            ~ occurs_at data pattern j).
  { intros j Hj Hocc. apply occurs_at_in_bounds in Hocc; [lia|exact Hne]. }
  clear Hpat.
  induction fuel as [|fuel IH]; intros p count Hfuel Hsum Hbefore.
  - simpl. intros j. destruct (decide (j < p)); [auto|].
    apply Hlate. lia.
  - cbn [memmem_loop]. destruct (Nat.ltb_spec 0 count) as [Hcount|Hzero].
    2:{ intros j. destruct (decide (j < p)); [auto|]. apply Hlate. lia. }
    destruct (memchr data p first count) as [q|] eqn:Hchr.
    + destruct (memchr_Some _ _ _ _ _ Hchr) as (Hq & Hc & Hskip).
      assert (Hskipped : forall j, j < q -> ~ occurs_at data pattern j).
      { intros j Hj. destruct (decide (j < p)); [auto|].
        intros Hocc. apply Hhead in Hocc.
        apply (Hskip j); [lia|exact Hocc]. }
      destruct (0 =? memcmp (drop q data) pattern (length pattern))%Z
        eqn:Hcmp.
      * apply memcmp_zero in Hcmp;
          [|rewrite length_drop; lia|lia].
        rewrite firstn_all in Hcmp.
        split; [lia|]. split; [exact Hcmp|exact Hskipped].
      * apply IH; [lia|lia|].
        intros j Hj. destruct (decide (j = q)) as [->|Hjq].
        -- intros Hocc. unfold occurs_at in Hocc.
           assert ((0 =? memcmp (drop q data) pattern (length pattern))%Z
                   = true); [|congruence].
           apply memcmp_zero; [rewrite length_drop; lia|lia|].
           rewrite firstn_all. exact Hocc.
        -- apply Hskipped. lia.
    + intros j. destruct (decide (j < p)); [auto|].
      destruct (decide (j < p + count)) as [Hin|Hout].
      * intros Hocc. apply Hhead in Hocc.
        apply (memchr_None _ _ _ _ Hchr) with (j := j); [lia|lia|exact Hocc].
      * apply Hlate. lia.
Qed.

(** X13: when [memmem] answers an offset, the pattern lies within the data
    from that offset on, the bytes there are those of the pattern, and the
    pattern occurs at no smaller offset. *)
Theorem memmem_answers_first_occurrence data pattern q :
  pattern <> [] ->
  memmem data pattern = Some q ->
  q + length pattern <= length data /\
  occurs_at data pattern q /\
  forall j, j < q -> ~ occurs_at data pattern j.
Proof.
  intros Hne. unfold memmem.
  destruct (Nat.ltb_spec (length data) (length pattern)) as [Hlt|Hge];
    [discriminate|].
  destruct pattern as [|first rest]; [congruence|].
  pose proof (memmem_loop_spec data first rest
                (length data - length (first :: rest) + 1) Hge 0
                (length data - length (first :: rest) + 1)
                (le_n _) eq_refl) as Hspec.
  intros Hq. rewrite Hq in Hspec. apply Hspec. intros j Hj. lia.
Qed.

(** X14: [memmem] answers [NULL] exactly when the pattern occurs nowhere in
    the data; in particular when the pattern is longer than the data. *)
Theorem memmem_null_iff_no_occurrence data pattern :
  pattern <> [] ->
  memmem data pattern = None <-> forall j, ~ occurs_at data pattern j.
Proof.
  intros Hne. split.
  - unfold memmem.
    destruct (Nat.ltb_spec (length data) (length pattern)) as [Hlt|Hge].
    + intros _ j Hocc. apply occurs_at_in_bounds in Hocc; [lia|exact Hne].
    + destruct pattern as [|first rest]; [congruence|].
      pose proof (memmem_loop_spec data first rest
                    (length data - length (first :: rest) + 1) Hge 0
                    (length data - length (first :: rest) + 1)
                    (le_n _) eq_refl) as Hspec.
      intros Hq. rewrite Hq in Hspec. apply Hspec. intros j Hj. lia.
  - intros Hnone. destruct (memmem data pattern) as [q|] eqn:Hq;
      [|reflexivity].
    unfold memmem in Hq.
    destruct (Nat.ltb_spec (length data) (length pattern)) as [Hlt|Hge];
      [discriminate|].
    destruct pattern as [|first rest]; [congruence|].
    pose proof (memmem_loop_spec data first rest
                  (length data - length (first :: rest) + 1) Hge 0
                  (length data - length (first :: rest) + 1)
                  (le_n _) eq_refl) as Hspec.
    rewrite Hq in Hspec. destruct Hspec as (_ & Hocc & _); [intros; lia|].
    exfalso. exact (Hnone q Hocc).
Qed.

(** ** [WriteLargeFile] and [ReadLargeFile] *)

Lemma size_sub_small a b :
  (b <= a)%N -> (a < 2 ^ 64)%N -> size_sub a b = (a - b)%N.
Proof.
  intros Hb Ha. unfold size_sub.
  rewrite (N.mod_small b) by lia.
  replace (a + 2 ^ 64 - b)%N with (a - b + 1 * 2 ^ 64)%N by lia.
  rewrite N.Div0.mod_add. apply N.mod_small. lia.
Qed.

Lemma transferred_app l1 l2 :
  transferred (l1 ++ l2) = (transferred l1 + transferred l2)%N.
Proof.
  induction l1 as [|tr l1 IH]; [reflexivity|].
  unfold transferred in *. simpl. rewrite IH. lia.
Qed.

Lemma contiguous_snoc log tr :
  contiguous log -> at_offset tr = transferred log ->
  contiguous (log ++ [tr]).
Proof.
  intros Hlog Htr k tr' Hk.
  destruct (decide (k < length log)) as [Hlt|Hge].
  - rewrite lookup_app_l in Hk by exact Hlt.
    rewrite take_app_le by lia. apply Hlog. exact Hk.
  - rewrite lookup_app_r in Hk by lia.
    destruct (k - length log) as [|d] eqn:Hd; simpl in Hk; [|discriminate].
    injection Hk as <-.
    assert (Hk : k = length log) by lia. subst k.
    rewrite take_app_length. exact Htr.
Qed.

Section LargeFiles.
Context {Files : Type}.
Variable call : Files -> N -> N -> (bool * N) * Files.
Variable atOnce : N.
Variable bytes : N.
Hypothesis atOnce_positive : (0 < atOnce)%N.
Hypothesis bytes_fit : (bytes < 2 ^ 64)%N.
Hypothesis call_bounded : never_reports_more call.

Lemma large_file_loop_spec fuel :
  forall fs buffer count log,
    N.to_nat count < fuel ->
    (count <= bytes)%N -> buffer = (bytes - count)%N ->
    transferred log = buffer ->
    Forall (fun tr => moved tr = true) log ->
    Forall (within atOnce bytes) log -> contiguous log ->
    exists r fs' log',
      large_file_loop call atOnce fuel fs buffer bytes count log
        = Some (r, fs', log') /\
      (r <= bytes)%N /\ r = transferred log' /\
      Forall (within atOnce bytes) log' /\ contiguous log' /\
      (r = bytes <-> Forall (fun tr => moved tr = true) log').
Proof using atOnce_positive bytes_fit call_bounded.
  induction fuel as [|fuel IH];
    intros fs buffer count log Hfuel Hcount Hbuffer Hmoved Hall Hwithin Hcont;
    [lia|].
  cbn [large_file_loop].
  destruct (N.ltb_spec 0 count) as [Hpos|Hzero].
  2:{ exists bytes, fs, log. repeat split; auto; lia. }
  pose proof (call_bounded fs buffer (N.min count atOnce)) as Hstep.
  set (r := call fs buffer (N.min count atOnce)) in *.
  set (tr := {| at_offset := buffer; asked := N.min count atOnce;
                succeeded := fst (fst r); reported := snd (fst r) |}).
  assert (Htr : within atOnce bytes tr) by (unfold within; simpl; lia).
  assert (Hcont' : contiguous (log ++ [tr])).
  { apply contiguous_snoc; [exact Hcont|]. simpl. congruence. }
  assert (Hwithin' : Forall (within atOnce bytes) (log ++ [tr])).
  { apply Forall_app. split; [exact Hwithin|]. constructor; auto. }
  assert (Hcase : negb (fst (fst r)) || (snd (fst r) =? 0)%N
                  = negb (moved tr)).
  { unfold moved. simpl. destruct (fst (fst r)), (snd (fst r) =? 0)%N;
      reflexivity. }
  rewrite Hcase. destruct (moved tr) eqn:Htrm; simpl.
  - assert (Hnz : (snd (fst r) <> 0)%N).
    { unfold moved in Htrm. simpl in Htrm.
      apply andb_true_iff in Htrm as [_ Hn].
      apply negb_true_iff, N.eqb_neq in Hn. exact Hn. }
    rewrite size_sub_small by lia.
    apply IH; try lia; auto.
    + rewrite transferred_app. unfold transferred at 2. simpl.
      rewrite Htrm. lia.
    + apply Forall_app. split; [exact Hall|]. constructor; auto.
  - rewrite size_sub_small by lia.
    exists (bytes - count)%N, (snd r), (log ++ [tr]).
    split; [reflexivity|]. split; [lia|]. split.
    { rewrite transferred_app. unfold transferred at 2. simpl.
      rewrite Htrm. lia. }
    split; [exact Hwithin'|]. split; [exact Hcont'|]. split.
    + intros Heq. lia.
    + intros Hgood. apply Forall_app in Hgood as [_ Hgood].
      inversion Hgood; subst. congruence.
Qed.

End LargeFiles.

(** X15: over a system that never reports more bytes than it is asked for,
    [WriteLargeFile] returns; it asks for at least one and at most 0x2000000
    bytes at a time, within the buffer, each call where the calls before it
    have ended; what it returns is the number of bytes the calls have
    moved, at most [bytes], and [bytes] exactly when every call succeeded
    and moved something. *)
Theorem WriteLargeFile_moves_a_prefix `{FileSystem} (fs : Files) bytes :
  (bytes < 2 ^ 64)%N -> never_reports_more WriteFile ->
  exists r fs' log,
    WriteLargeFile fs bytes = Some (r, fs', log) /\
    (r <= bytes)%N /\ r = transferred log /\
    Forall (within 0x2000000%N bytes) log /\ contiguous log /\
    (r = bytes <-> Forall (fun tr => moved tr = true) log).
Proof.
  intros Hbytes Hcall. unfold WriteLargeFile.
  apply large_file_loop_spec; auto; try lia; try constructor.
  intros k tr Hk. rewrite lookup_nil in Hk. discriminate.
Qed.

(** X16: the same of [ReadLargeFile], which asks for at most 0x1000000
    bytes at a time. *)
Theorem ReadLargeFile_moves_a_prefix `{FileSystem} (fs : Files) bytes :
  (bytes < 2 ^ 64)%N -> never_reports_more ReadFile ->
  exists r fs' log,
    ReadLargeFile fs bytes = Some (r, fs', log) /\
    (r <= bytes)%N /\ r = transferred log /\
    Forall (within 0x1000000%N bytes) log /\ contiguous log /\
    (r = bytes <-> Forall (fun tr => moved tr = true) log).
Proof.
  intros Hbytes Hcall. unfold ReadLargeFile.
  apply large_file_loop_spec; auto; try lia; try constructor.
  intros k tr Hk. rewrite lookup_nil in Hk. discriminate.
Qed.

(** ** The clocks *)

Lemma timeInNanos_value ts :
  (0 <= ts_sec ts <= 9223372035)%Z -> (0 <= ts_nsec ts < 1000000000)%Z ->
  timeInNanos ts = (ts_sec ts * 1000000000 + ts_nsec ts)%Z.
Proof.
  intros Hs Hn. unfold timeInNanos.
  rewrite (wrap64_small (ts_sec ts * 1000000000)) by lia.
  apply wrap64_small. lia.
Qed.

(** X17: for clock readings of at most 9223372035 seconds with fewer than
    10^9 nanoseconds, [timeInNanos] does not wrap: it orders two readings as
    the clock does, and the reading can be read back from it. *)
Theorem timeInNanos_orders_readings a b :
  (0 <= ts_sec a <= 9223372035)%Z -> (0 <= ts_nsec a < 1000000000)%Z ->
  (0 <= ts_sec b <= 9223372035)%Z -> (0 <= ts_nsec b < 1000000000)%Z ->
  ((timeInNanos a < timeInNanos b)%Z <->
   (ts_sec a < ts_sec b)%Z \/
   (ts_sec a = ts_sec b /\ ts_nsec a < ts_nsec b)%Z) /\
  (timeInNanos a / 1000000000 = ts_sec a)%Z /\
  (timeInNanos a mod 1000000000 = ts_nsec a)%Z.
Proof.
  intros Hsa Hna Hsb Hnb.
  rewrite !timeInNanos_value by assumption.
  split; [lia|]. split.
  - rewrite Z.div_add_l by lia.
    rewrite Z.div_small by lia. lia.
  - rewrite Z.add_comm, Z.mod_add by lia. apply Z.mod_small. lia.
Qed.

Lemma timeInMillis_value t :
  (0 <= tv_sec t <= 9223372036854774)%Z -> (0 <= tv_usec t < 1000000)%Z ->
  timeInMillis t = (tv_sec t * 1000 + tv_usec t / 1000)%Z /\
  (0 <= tv_usec t / 1000 < 1000)%Z.
Proof.
  intros Hs Hu. unfold timeInMillis.
  rewrite Z.quot_div_nonneg by lia.
  assert (0 <= tv_usec t / 1000 < 1000)%Z.
  { split; [apply Z.div_pos; lia|apply Z.div_lt_upper_bound; lia]. }
  rewrite (wrap64_small (tv_sec t * 1000)) by lia.
  split; [apply wrap64_small; lia|assumption].
Qed.

(** X18: for clock readings of at most 9223372036854774 seconds with fewer
    than 10^6 microseconds, [timeInMillis] does not wrap: it never goes back
    when the clock goes on, it drops the microseconds below a millisecond,
    and its thousands are the seconds. *)
Theorem timeInMillis_never_goes_back a b :
  (0 <= tv_sec a <= 9223372036854774)%Z -> (0 <= tv_usec a < 1000000)%Z ->
  (0 <= tv_sec b <= 9223372036854774)%Z -> (0 <= tv_usec b < 1000000)%Z ->
  (tv_sec a < tv_sec b)%Z \/
  (tv_sec a = tv_sec b /\ tv_usec a <= tv_usec b)%Z ->
  (timeInMillis a <= timeInMillis b)%Z /\
  (timeInMillis a / 1000 = tv_sec a)%Z /\
  (timeInMillis a mod 1000 = tv_usec a / 1000)%Z.
Proof.
  intros Hsa Hua Hsb Hub Hle.
  destruct (timeInMillis_value a Hsa Hua) as [-> Ha].
  destruct (timeInMillis_value b Hsb Hub) as [-> Hb].
  split; [|split].
  - destruct Hle as [Hlt|[Heq Hu]]; [lia|].
    apply (Z.div_le_mono _ _ 1000) in Hu; lia.
  - rewrite Z.div_add_l by lia.
    rewrite Z.div_small by lia. lia.
  - rewrite Z.add_comm, Z.mod_add by lia. apply Z.mod_small. lia.
Qed.

(** * The properties on examples *)

(** X7 on a pair whose second mate the scoring does not find: without
    forced spacing the pair stays in the single-end fallback. *)
Lemma unforced_chimeric_pair_falls_back :
  exists t',
    fst (fst (align_second_stage (E := scripted chimeric)
                (config 4 false) 1 3%Z 10%Z [long_pair 8 2] start)) !! 0
      = Some t' /\
    singleNotDone t' = true /\ alignedAsPair (result0 t') = true.
Proof.
  eexists. split; [reflexivity|].
  destruct (unforced_pair_falls_back_iff_a_mate_is_missing
              (E := scripted chimeric) (config 4 false) 1 3%Z 10%Z
              [long_pair 8 2] start 0 (long_pair 8 2) _
              eq_refl (le_n 1) eq_refl eq_refl eq_refl eq_refl)
    as (Ha & _ & _ & Hs).
  split; [rewrite Hs; reflexivity|exact Ha].
Defined.

(** X9 on a pair found as a pair: the barcode is finished and the pair has
    no flag left. *)
Lemma finished_barcode_of_one_found_pair :
  exists t',
    fst (fst (align (E := scripted five_candidates)
                (config 4 false) 1 3%Z 10%Z [long_pair 8 2] start)) !! 0
      = Some t' /\
    pairNotDone t' = false /\ singleNotDone t' = false.
Proof.
  eexists. split; [vm_compute; reflexivity|].
  apply (finished_barcode_has_no_pair_left
           (E := scripted five_candidates) (config 4 false) 1 3%Z 10%Z
           [long_pair 8 2] start 0).
  - intros [|j] t Hj Ht; [|lia]. injection Ht as <-. discriminate.
  - vm_compute. reflexivity.
  - lia.
  - vm_compute. reflexivity.
Defined.




(** X13 on a text in which the pattern occurs twice. *)
Lemma memmem_finds_first_of_two :
  memmem (list_byte_of_string "hello world, hello")
         (list_byte_of_string "hello") = Some 0 /\
  occurs_at (list_byte_of_string "say hello, hello")
            (list_byte_of_string "hello") 4 /\
  ~ occurs_at (list_byte_of_string "say hello, hello")
              (list_byte_of_string "hello") 3.
Proof.
  split; [reflexivity|].
  destruct (memmem_answers_first_occurrence
              (list_byte_of_string "say hello, hello")
              (list_byte_of_string "hello") 4)
    as (_ & Hocc & Hfirst); [discriminate|reflexivity|].
  split; [exact Hocc|]. apply Hfirst. lia.
Defined.

(** X14 on a pattern that the text holds only in the other order. *)
Lemma memmem_null_for_absent_pattern :
  ~ occurs_at (list_byte_of_string "aaab") (list_byte_of_string "ba") 2.
Proof.
  apply (proj1 (memmem_null_iff_no_occurrence
                  (list_byte_of_string "aaab") (list_byte_of_string "ba")
                  ltac:(discriminate))).
  reflexivity.
Defined.

(** X15 on a system that writes at most 40 bytes per call: 100 bytes go in
    three calls, at the offsets 0, 40 and 80. *)
Lemma WriteLargeFile_in_three_calls :
  exists r fs' log,
    @WriteLargeFile (slow_disk 40) false 100 = Some (r, fs', log) /\
    r = 100%N /\ map at_offset log = [0; 40; 80]%N /\
    contiguous log.
Proof.
  destruct (@WriteLargeFile_moves_a_prefix (slow_disk 40) false 100)
    as (r & fs' & log & Hrun & _ & _ & _ & Hcont & _).
  - reflexivity.
  - intros fs buffer n. simpl. lia.
  - exists r, fs', log. split; [exact Hrun|].
    vm_compute in Hrun. injection Hrun as <- <- <-.
    repeat split. exact Hcont.
Defined.

(** X16 on a system that fails: nothing is read and the value is 0. *)
Lemma ReadLargeFile_of_failing_system :
  exists r fs' log,
    @ReadLargeFile (slow_disk 40) true 100 = Some (r, fs', log) /\
    r = 0%N /\ r = transferred log.
Proof.
  destruct (@ReadLargeFile_moves_a_prefix (slow_disk 40) true 100)
    as (r & fs' & log & Hrun & _ & Hsum & _).
  - reflexivity.
  - intros fs buffer n. simpl. lia.
  - exists r, fs', log. split; [exact Hrun|]. split; [|exact Hsum].
    vm_compute in Hrun. injection Hrun as <- _ _. reflexivity.
Defined.

(** X17 on two readings of the same second. *)
Lemma timeInNanos_of_two_readings :
  (timeInNanos {| ts_sec := 1700000000; ts_nsec := 5 |}
   < timeInNanos {| ts_sec := 1700000000; ts_nsec := 6 |})%Z.
Proof.
  apply (timeInNanos_orders_readings
           {| ts_sec := 1700000000; ts_nsec := 5 |}
           {| ts_sec := 1700000000; ts_nsec := 6 |}); simpl; lia.
Defined.

(** X18 on two readings within the same millisecond. *)
Lemma timeInMillis_of_two_readings :
  (timeInMillis {| tv_sec := 1700000000; tv_usec := 999001 |}
   <= timeInMillis {| tv_sec := 1700000000; tv_usec := 999999 |})%Z.
Proof.
  apply (timeInMillis_never_goes_back
           {| tv_sec := 1700000000; tv_usec := 999001 |}
           {| tv_sec := 1700000000; tv_usec := 999999 |}); simpl; lia.
Defined.
